(** * Healix medical chatbot: ingestion, indexing and the conversational turn

    A shallow embedding of the Python sources

      - [src/ingest.py]        text cleaning, filename classification, loading
      - [src/vector_store.py]  batched indexing with one retry
      - [src/rag_engine.py]    history-aware retrieval and the full RAG chain
      - [src/chatbot.py]       the conversation session
      - [main.py]              the [--ingest] branch of the command line

    followed by the properties proved about them.

    Conventions.
    - A Python [str] is a [string]; each character stands for the code point
      of the same number, so the model covers text whose code points are
      below 256.  [str.lower] and [str.strip] are written out for that range.
    - A [dict] used as document metadata is a [gmap string pyval].
    - External services (the language model, the retriever, the Chroma
      store, the file loaders) are arguments: records of functions that
      return [Ok v] or [Raise e].  Services used while state is threaded
      also receive the trace of everything done so far, so that the same
      call may succeed at one time and fail at another.
    - A raised value is either an instance of [Exception] (what every
      handler of the repository catches, [except Exception]) or an instance
      of [BaseException] only, such as [KeyboardInterrupt], which no handler
      of the repository catches. *)

From Stdlib Require Import ZArith Ascii String List Bool Lia.
From stdpp Require Import base gmap strings list pretty.

Open Scope string_scope.
Open Scope list_scope.
Open Scope nat_scope.

(** String concatenation unfolds under [simpl] when its first argument
    starts with a constructor. *)
#[local] Arguments String.append !_ _ /.

(* ===================================================================== *)
(** * Part I: definitions                                                 *)
(* ===================================================================== *)

(** ** Python strings *)

Module PyStr.

Definition LF : ascii := ascii_of_nat 10.
Definition SLASH : ascii := "/"%char.

(** The one-character string [c]. *)
Definition char (c : ascii) : string := String c "".

(** [str.isspace] on one code point below 256: TAB..CR, FS..US, space,
    NEL (0x85) and the no-break space (0xA0). *)
Definition is_space (c : ascii) : bool :=
  let n := nat_of_ascii c in
  ((9 <=? n) && (n <=? 13)) || ((28 <=? n) && (n <=? 32))
  || (n =? 133) || (n =? 160).

(** [str.lower] on one code point below 256: A..Z, and the Latin-1
    capitals 0xC0..0xDE except the multiplication sign 0xD7. *)
Definition lower_char (c : ascii) : ascii :=
  let n := nat_of_ascii c in
  if ((65 <=? n) && (n <=? 90)) || ((192 <=? n) && (n <=? 214))
     || ((216 <=? n) && (n <=? 222))
  then ascii_of_nat (n + 32) else c.

Fixpoint lower (s : string) : string :=
  match s with
  | "" => ""
  | String c s' => String (lower_char c) (lower s')
  end.

(** [s.startswith(p)] *)
Fixpoint startswith (s p : string) {struct p} : bool :=
  match p with
  | "" => true
  | String a p' =>
      match s with
      | "" => false
      | String b s' => if Ascii.eqb a b then startswith s' p' else false
      end
  end.

(** [sub in s] *)
Fixpoint contains (s sub : string) : bool :=
  if startswith s sub then true
  else match s with
       | "" => false
       | String _ s' => contains s' sub
       end.

(** [s.endswith(suf)] *)
Fixpoint endswith (s suf : string) : bool :=
  if String.eqb s suf then true
  else match s with
       | "" => false
       | String _ s' => endswith s' suf
       end.

(** [c in s] for one character *)
Fixpoint has_char (c : ascii) (s : string) : bool :=
  match s with
  | "" => false
  | String a s' => Ascii.eqb a c || has_char c s'
  end.

(** [s.lstrip()], [s.rstrip()], [s.strip()] *)
Fixpoint lstrip (s : string) : string :=
  match s with
  | "" => ""
  | String c s' => if is_space c then lstrip s' else s
  end.

Fixpoint rstrip (s : string) : string :=
  match s with
  | "" => ""
  | String c s' =>
      match rstrip s' with
      | "" => if is_space c then "" else char c
      | r => String c r
      end
  end.

Definition strip (s : string) : string := rstrip (lstrip s).

(** Every character of [s] is white space ([s.isspace()] or [s == ""]). *)
Fixpoint all_space (s : string) : bool :=
  match s with
  | "" => true
  | String c s' => is_space c && all_space s'
  end.

(** [s.split(sep)] for a one-character separator: never the empty list. *)
Fixpoint split (sep : ascii) (s : string) : list string :=
  match s with
  | "" => [""]
  | String c s' =>
      if Ascii.eqb c sep then "" :: split sep s'
      else match split sep s' with
           | l :: ls => String c l :: ls
           | [] => [char c]
           end
  end.

(** [sep.join(ls)] *)
Fixpoint join (sep : string) (ls : list string) : string :=
  match ls with
  | [] => ""
  | [l] => l
  | l :: ls' => l +:+ sep +:+ join sep ls'
  end.

(** [s.replace(a, b)] for one-character [a] and [b] *)
Fixpoint replace (a b : ascii) (s : string) : string :=
  match s with
  | "" => ""
  | String c s' => String (if Ascii.eqb c a then b else c) (replace a b s')
  end.

(** [posixpath.basename]: what follows the last slash. *)
Fixpoint basename (p : string) : string :=
  match p with
  | "" => ""
  | String c p' =>
      if has_char SLASH p' then basename p'
      else if Ascii.eqb c SLASH then p' else p
  end.

(** [posixpath.join(a, b)] *)
Definition path_join (a b : string) : string :=
  if startswith b (char SLASH) then b
  else if String.eqb a "" || endswith a (char SLASH) then a +:+ b
  else a +:+ char SLASH +:+ b.

End PyStr.

(** ** Raised values and results *)

(** [Exception msg]: an instance of [Exception] or of a subclass, with
    [str(e) = msg].  [BaseException msg]: an instance of [BaseException]
    that is not an [Exception] ([KeyboardInterrupt], [SystemExit], ...). *)
Inductive exn : Type :=
| Exception (msg : string)
| BaseException (msg : string).

Definition is_Exception (e : exn) : bool :=
  match e with Exception _ => true | BaseException _ => false end.

Definition str_exn (e : exn) : string :=
  match e with Exception m => m | BaseException m => m end.

Inductive result (A : Type) : Type :=
| Ok (a : A)
| Raise (e : exn).
Arguments Ok {A} a.
Arguments Raise {A} e.

(** ** Documents *)

(** Metadata values: strings and integers. *)
Inductive pyval : Type :=
| PStr (s : string)
| PInt (n : Z).

(** [str(v)] *)
Definition str_val (v : pyval) : string :=
  match v with PStr s => s | PInt n => pretty n end.

(** [langchain_core.documents.Document] *)
Record Document : Type := mkDocument {
  page_content : string;
  metadata : gmap string pyval
}.

(** ** State and exceptions

    [M S A]: a computation over a state [S] that returns an [A] or raises.
    The state reached when the exception was raised is kept, as in Python. *)

Definition M (S A : Type) : Type := S -> result A * S.

Definition ret {S A : Type} (a : A) : M S A := fun s => (Ok a, s).

Definition bind {S A B : Type} (m : M S A) (k : A -> M S B) : M S B :=
  fun s =>
    match m s with
    | (Ok a, s') => k a s'
    | (Raise e, s') => (Raise e, s')
    end.

(** [try: body / except Exception as e: handler e].  An instance of
    [BaseException] only is not caught. *)
Definition try_except {S A : Type} (body : M S A) (handler : exn -> M S A) : M S A :=
  fun s =>
    match body s with
    | (Raise (Exception msg), s') => handler (Exception msg) s'
    | r => r
    end.

Notation "'do' x <- m ; k" := (bind m (fun x => k))
  (at level 10, x name, m at level 100, k at level 200).
Notation "'do_' m ; k" := (bind m (fun _ => k))
  (at level 10, m at level 100, k at level 200).

(** [for x in xs: body x] *)
Fixpoint for_in {S A : Type} (xs : list A) (body : A -> M S unit) : M S unit :=
  match xs with
  | [] => ret tt
  | x :: xs' => do_ body x; for_in xs' body
  end.

(** ** src/ingest.py *)

Module Ingest.
Import PyStr.

(** Line 42: the test of the list comprehension,
    [len(line.strip()) > 3 or line.strip() == ""]. *)
Definition keep_line (line : string) : bool :=
  (3 <? String.length (strip line)) || String.eqb (strip line) "".

(** Lines 40-43: the pass over the output of [clean]. *)
Definition drop_short_lines (cleaned : string) : string :=
  let lines := split LF cleaned in
  let filtered_lines := List.filter keep_line lines in
  join (char LF) filtered_lines.

(** Lines 45-62. *)
Definition determine_metadata (file_path : string) : string * Z :=
  let filename := lower (basename file_path) in
  if contains filename "guideline" then ("guideline", 1%Z)
  else if contains filename "textbook" then ("textbook", 2%Z)
  else if contains filename "faq" || endswith file_path ".csv" then ("faq", 3%Z)
  else ("textbook", 2%Z).

(** What ingestion reads from the machine: [os.path.exists],
    [os.listdir], and the two loaders applied to a path. *)
Record FileSystem : Type := mkFileSystem {
  path_exists : string -> bool;
  listdir : string -> result (list string);
  PyPDFLoader_load : string -> result (list Document);
  CSVLoader_load : string -> result (list Document)
}.

Section WithLibraries.
(** [cleantext.clean] with the keyword arguments of lines 17-36. *)
Variable clean : string -> string.
(** [RecursiveCharacterTextSplitter(chunk_size=3000, chunk_overlap=200,
    separators=[...]).split_text]. *)
Variable split_text : string -> list string.
Variable fs : FileSystem.

(** Lines 12-43. *)
Definition clean_text_content (text : string) : string :=
  drop_short_lines (clean text).

(** Lines 96-105: the body of [for doc in loaded_docs] up to the append. *)
Definition update_doc (filename doc_type : string) (rank : Z) (doc : Document)
  : Document :=
  let content := clean_text_content (page_content doc) in
  let m := <["source" := PStr filename]> (metadata doc) in
  let m := <["type" := PStr doc_type]> m in
  let m := <["rank" := PInt rank]> m in
  let m := match m !! "page" with
           | Some _ => m
           | None => <["page" := PStr "N/A"]> m
           end in
  mkDocument content m.

(** Lines 81-88: the dispatch on the extension; [None] is [continue]. *)
Definition load_file (filename file_path : string) : option (result (list Document)) :=
  if endswith filename ".pdf" then Some (PyPDFLoader_load fs file_path)
  else if endswith filename ".csv" then Some (CSVLoader_load fs file_path)
  else None.

(** Lines 74-110: the loop over the listing, [documents] being the
    accumulator. *)
Fixpoint load_all (data_dir : string) (files : list string)
         (documents : list Document) : result (list Document) :=
  match files with
  | [] => Ok documents
  | filename :: rest =>
      let file_path := path_join data_dir filename in
      let '(doc_type, rank) := determine_metadata file_path in
      match load_file filename file_path with
      | None => load_all data_dir rest documents
      | Some (Ok loaded_docs) =>
          load_all data_dir rest
            (documents ++ map (update_doc filename doc_type rank) loaded_docs)
      | Some (Raise (Exception _)) => load_all data_dir rest documents
      | Some (Raise e) => Raise e
      end
  end.

(** Modelled from the spec: [split_documents] of the text splitter is
    library code outside the repository.  Section 4.3: the content of
    every document is split, and the metadata is copied verbatim from
    the parent onto every resulting chunk. *)
Definition split_documents (documents : list Document) : list Document :=
  flat_map
    (fun d => map (fun t => mkDocument t (metadata d)) (split_text (page_content d)))
    documents.

(** Lines 64-123. *)
Definition ingest_documents (data_dir : string) : result (list Document) :=
  if negb (path_exists fs data_dir) then Ok []
  else
    match listdir fs data_dir with
    | Raise e => Raise e
    | Ok files =>
        match load_all data_dir files [] with
        | Raise e => Raise e
        | Ok documents => Ok (split_documents documents)
        end
    end.
End WithLibraries.

End Ingest.

(** ** src/vector_store.py *)

Module VectorStore.

Definition BATCH_SIZE : nat := 32.

(** What [index_documents] does to the outside, in order.  [print] and
    [logger.info] progress lines are left out. *)
Inductive event : Type :=
| GetEmbeddings
| FromDocuments (batch : list Document)
| AddDocuments (batch : list Document)
| Sleep (seconds : nat)
| LogWarning (msg : string)
| LogError (msg : string).

(** The store and the embedding service, each given the trace so far.
    [add_documents] stands for [Chroma(persist_directory=...,
    embedding_function=...)] followed by [add_documents(batch)]. *)
Record Store : Type := mkStore {
  persist_exists : list event -> bool;
  get_embeddings : list event -> result unit;
  from_documents : list event -> list Document -> result unit;
  add_documents : list event -> list Document -> result unit
}.

(** [range(0, stop, step)] *)
Definition range_step (stop step : nat) : list nat :=
  map (fun k => k * step) (seq 0 ((stop + step - 1) / step)).

(** [l[i : j]] for [0 <= i <= j] *)
Definition slice {A : Type} (l : list A) (i j : nat) : list A :=
  take (j - i) (drop i l).

Section WithStore.
Variable store : Store.

Definition emit (ev : event) : M (list event) unit :=
  fun tr => (Ok tt, tr ++ [ev]).

Definition call (ev : event) (f : list event -> result unit) : M (list event) unit :=
  fun tr => (f tr, tr ++ [ev]).

(** Lines 70-78: the first attempt at a batch. *)
Definition write_batch (i : nat) (batch : list Document) : M (list event) unit :=
  fun tr =>
    if (i =? 0) && negb (persist_exists store tr)
    then call (FromDocuments batch) (fun tr => from_documents store tr batch) tr
    else call (AddDocuments batch) (fun tr => add_documents store tr batch) tr.

(** Lines 65-93: the body of the loop. *)
Definition index_batch (documents : list Document) (i : nat) : M (list event) unit :=
  let batch := slice documents i (i + BATCH_SIZE) in
  try_except
    (write_batch i batch)
    (fun e =>
       do_ emit (LogError ("Error indexing batch " +:+ pretty i +:+ ": " +:+ str_exn e));
       do_ emit (Sleep 5);
       try_except
         (call (AddDocuments batch) (fun tr => add_documents store tr batch))
         (fun e2 =>
            emit (LogError ("Failed retry for batch " +:+ pretty i +:+ ": " +:+ str_exn e2)))).

(** Lines 47-96. *)
Definition index_documents (documents : list Document) : M (list event) unit :=
  match documents with
  | [] => emit (LogWarning "No documents to index.")
  | _ =>
      do_ call GetEmbeddings (get_embeddings store);
      let total_docs := length documents in
      for_in (range_step total_docs BATCH_SIZE) (index_batch documents)
  end.
End WithStore.

End VectorStore.

(** ** src/rag_engine.py *)

Module RagEngine.
Import PyStr.

(** [langchain_core.messages]: the two kinds the session builds. *)
Inductive message : Type :=
| HumanMessage (content : string)
| AIMessage (content : string).

(** Calls to the outside during a turn, in order, and [logger.error]
    lines.  [logger.info] lines are left out. *)
Inductive event : Type :=
| RephraseInvoke (input : string) (chat_history : list message)
| RetrieverInvoke (question : string)
| AnswerInvoke (input : string) (chat_history : list message) (context : string)
| LogError (msg : string).

(** [rephrase_chain = contextualize_q_prompt | llm | StrOutputParser()],
    [retriever = vector_store.as_retriever(search_kwargs={"k": 5})] and
    [answer_chain = qa_prompt | llm | StrOutputParser()], each given the
    trace so far. *)
Record Services : Type := mkServices {
  rephrase_chain : list event -> string -> list message -> result string;
  retriever : list event -> string -> result (list Document);
  answer_chain : list event -> string -> list message -> string -> result string
}.

(** The dictionary passed to the chain: [{"input": ..., "chat_history": ...}]. *)
Record Inp : Type := mkInp {
  inp_input : string;
  inp_chat_history : list message
}.

(** The dictionary returned by [_full_chain]. *)
Record Response : Type := mkResponse {
  r_input : string;
  r_chat_history : list message;
  r_context : list Document;
  r_answer : string
}.

(** Lines 19-28: one block of [format_docs]. *)
Definition format_doc (doc : Document) : string :=
  let source := default (PStr "Unknown") (metadata doc !! "source") in
  let page := default (PStr "N/A") (metadata doc !! "page") in
  let doc_type := default (PStr "General") (metadata doc !! "type") in
  let rank := default (PInt 2) (metadata doc !! "rank") in
  let content := replace LF " " (page_content doc) in
  "Source: " +:+ str_val source +:+ " (Page " +:+ str_val page
  +:+ ") [Type: " +:+ str_val doc_type +:+ ", Rank: " +:+ str_val rank +:+ "]"
  +:+ char LF +:+ "Content: " +:+ content +:+ char LF.

(** Lines 14-31. *)
Definition format_docs (docs : list Document) : string :=
  join (char LF +:+ char LF) (map format_doc docs).

Definition invoke {A : Type} (ev : event) (f : list event -> result A)
  : M (list event) A :=
  fun tr => (f tr, tr ++ [ev]).

Section WithServices.
Variable svc : Services.

(** Lines 65-77. *)
Definition _history_aware_retrieve (inp : Inp) : M (list event) (list Document) :=
  let chat_history := inp_chat_history inp in
  let question := inp_input inp in
  do question <-
    match chat_history with
    | [] => ret question
    | _ :: _ =>
        invoke (RephraseInvoke question chat_history)
               (fun tr => rephrase_chain svc tr question chat_history)
    end;
  invoke (RetrieverInvoke question) (fun tr => retriever svc tr question).

(** Lines 105-128. *)
Definition _full_chain (inp : Inp) : M (list event) Response :=
  do docs <- _history_aware_retrieve inp;
  let context_str := format_docs docs in
  do answer <-
    invoke (AnswerInvoke (inp_input inp) (inp_chat_history inp) context_str)
           (fun tr => answer_chain svc tr (inp_input inp) (inp_chat_history inp)
                                    context_str);
  ret (mkResponse (inp_input inp) (inp_chat_history inp) docs answer).
End WithServices.

End RagEngine.

(** ** src/chatbot.py *)

Module Chatbot.
Import RagEngine.

(** The session object ([self.chat_history]) together with the trace of
    the outside world. *)
Record World : Type := mkWorld {
  chat_history : list (string * string);
  trace : list event
}.

Definition APOLOGY : string :=
  "I apologize, but I encountered an error while processing your request. Please try again.".

(** Run a computation over the trace inside the world. *)
Definition lift {A : Type} (m : M (list event) A) : M World A :=
  fun w => let '(r, tr) := m (trace w) in (r, mkWorld (chat_history w) tr).

(** [self.chat_history.append(turn)] *)
Definition append_turn (turn : string * string) : M World unit :=
  fun w => (Ok tt, mkWorld (chat_history w ++ [turn]) (trace w)).

(** Lines 25-28. *)
Definition lc_history_of (history : list (string * string)) : list message :=
  flat_map (fun '(h_msg, ai_msg) => [HumanMessage h_msg; AIMessage ai_msg]) history.

Section WithServices.
Variable svc : Services.

(** Lines 14-49. *)
Definition get_answer (query : string) : M World string :=
  if String.eqb query "" then ret ""
  else fun w =>
    let lc_history := lc_history_of (chat_history w) in
    try_except
      (do response <- lift (_full_chain svc (mkInp query lc_history));
       let answer := r_answer response in
       do_ append_turn (query, answer);
       ret answer)
      (fun e =>
         do_ lift (fun tr =>
                     (Ok tt, tr ++ [LogError ("Error generating answer: " +:+ str_exn e)]));
         ret APOLOGY)
      w.

(** Lines 51-53. *)
Definition clear_history : M World unit :=
  fun w => (Ok tt, mkWorld [] (trace w)).
End WithServices.

End Chatbot.

(** ** main.py, the [--ingest] branch *)

Module Main.

Definition NOTHING_INDEXED : string := "No documents found or failed to load.".

Section WithMachine.
Variable clean : string -> string.
Variable split_text : string -> list string.
Variable fs : Ingest.FileSystem.
Variable store : VectorStore.Store.

(** Lines 43-50 of [main]: the result is the line printed last. *)
Definition main_ingest (data_dir : string) : M (list VectorStore.event) string :=
  match Ingest.ingest_documents clean split_text fs data_dir with
  | Raise e => fun tr => (Raise e, tr)
  | Ok docs =>
      match docs with
      | [] => ret NOTHING_INDEXED
      | _ :: _ =>
          do_ VectorStore.index_documents store docs;
          ret ("Successfully indexed " +:+ pretty (length docs) +:+ " chunks.")
      end
  end.
End WithMachine.

End Main.

(** ** Specification predicates and sample machines *)

Module IngestSpec.
Import PyStr Ingest.

(** [sub] occurs in [name] when case is ignored: some part of [name]
    lowers to [sub]. *)
Definition ci_contains (name sub : string) : Prop :=
  exists pre mid post, name = pre +:+ mid +:+ post /\ lower mid = sub.

(** [s] ends with [suf], character for character. *)
Definition has_suffix (s suf : string) : Prop :=
  exists pre, s = pre +:+ suf.

(** [name] is the last component of [path]: it holds no slash and [path]
    is [name] or ends with a slash followed by [name]. *)
Definition last_component (path name : string) : Prop :=
  has_char SLASH name = false
  /\ (path = name \/ exists dir, path = dir +:+ char SLASH +:+ name).

(** A listing has no document when the directory is missing or no entry
    has a supported extension. *)
Definition no_documents_found (fs : FileSystem) (data_dir : string) : Prop :=
  path_exists fs data_dir = false
  \/ (path_exists fs data_dir = true
      /\ exists files, listdir fs data_dir = Ok files
         /\ forall f, In f files -> load_file fs f (path_join data_dir f) = None).

(** Documents are found and every one of them fails to load. *)
Definition all_failed_to_load (fs : FileSystem) (data_dir : string) : Prop :=
  path_exists fs data_dir = true
  /\ exists files, listdir fs data_dir = Ok files
     /\ (exists f, In f files /\ load_file fs f (path_join data_dir f) <> None)
     /\ forall f r, In f files -> load_file fs f (path_join data_dir f) = Some r ->
                    exists msg, r = Raise (Exception msg).

(** [d] is a page or row of a file of [files] that loaded, after
    [update_doc]. *)
Definition loaded_from (clean : string -> string) (fs : FileSystem)
           (data_dir : string) (files : list string) (d : Document) : Prop :=
  exists filename loaded doc,
    In filename files
    /\ load_file fs filename (path_join data_dir filename) = Some (Ok loaded)
    /\ In doc loaded
    /\ d = update_doc clean filename
             (fst (determine_metadata (path_join data_dir filename)))
             (snd (determine_metadata (path_join data_dir filename))) doc.

(** An existing, empty directory. *)
Definition fs_empty : FileSystem :=
  mkFileSystem (fun _ => true) (fun _ => Ok [])
               (fun _ => Ok []) (fun _ => Ok []).

(** A directory with one PDF that cannot be read. *)
Definition fs_corrupt : FileSystem :=
  mkFileSystem (fun _ => true) (fun _ => Ok ["notes.pdf"])
               (fun _ => Raise (Exception "EOF marker not found"))
               (fun _ => Ok []).

(** A directory with one guideline of one page, one table of one row and
    a file that is skipped. *)
Definition fs_corpus : FileSystem :=
  mkFileSystem (fun _ => true)
    (fun _ => Ok ["guideline_diabetes.pdf"; "README.md"; "questions.csv"])
    (fun p => Ok [mkDocument "Target A1C is 7%."
                    (<["source" := PStr p]> (<["page" := PInt 0]> ∅))])
    (fun p => Ok [mkDocument "question: What is A1C?"
                    (<["source" := PStr p]> (<["row" := PInt 0]> ∅))]).

(** The chunk of the guideline and the chunk of the table, as ingestion
    leaves them. *)
Definition a1c_chunk : Document :=
  mkDocument "Target A1C is 7%."
    (<["source" := PStr "guideline_diabetes.pdf"]>
       (<["page" := PInt 0]>
          (<["type" := PStr "guideline"]> (<["rank" := PInt 1]> ∅)))).

Definition row_chunk : Document :=
  mkDocument "question: What is A1C?"
    (<["source" := PStr "questions.csv"]>
       (<["row" := PInt 0]>
          (<["page" := PStr "N/A"]>
             (<["type" := PStr "faq"]> (<["rank" := PInt 3]> ∅))))).

(** The four keys that ingestion sets. *)
Definition stamped_keys : list string := ["source"; "type"; "rank"; "page"].

(** The rule for a line in the words of the specification: it is kept
    when what is left of it after trimming is longer than 3 characters,
    or when the line is empty. *)
Definition spec_keeps (line : string) : bool :=
  (3 <? String.length (strip line)) || String.eqb line "".

(** What the white-space normalisation of the cleaner leaves: no line of
    what it returns is a non-empty line of white space only. *)
Definition leaves_no_blank_line (clean : string -> string) : Prop :=
  forall text line : string,
    In line (split LF (clean text)) -> all_space line = true -> line = "".

(** A cleaner that does to lines what that normalisation does: every line
    is stripped, and the lines left empty are left out. *)
Definition strip_lines (text : string) : string :=
  join (char LF)
    (List.filter (fun l => negb (String.eqb l "")) (map strip (split LF text))).

(** A cleaner and a splitter that change nothing. *)
Definition clean_id (text : string) : string := text.
Definition split_whole (text : string) : list string := [text].
End IngestSpec.

Module StoreSpec.
Import VectorStore.

(** Every failure of a write is an instance of [Exception]. *)
Definition writes_raise_only_Exception (store : Store) : Prop :=
  (forall tr b e, from_documents store tr b = Raise e -> is_Exception e = true)
  /\ (forall tr b e, add_documents store tr b = Raise e -> is_Exception e = true).

(** The first attempt at batch [b] after trace [tr] is the call [w], a
    write of [b], with outcome [r]. *)
Definition first_attempt (store : Store) (tr : list event) (b : list Document)
           (w : event) (r : result unit) : Prop :=
  (w = FromDocuments b /\ r = from_documents store tr b)
  \/ (w = AddDocuments b /\ r = add_documents store tr b).

(** What is done about one batch, from trace [tr] on: written at once;
    or failed, logged, waited 5 seconds and written at the one retry; or
    failed twice and logged as lost. *)
Inductive batch_done (store : Store) (b : list Document) (tr : list event)
  : list event -> Prop :=
| batch_written (w : event) :
    first_attempt store tr b w (Ok tt) ->
    batch_done store b tr (tr ++ [w])
| batch_retried (w : event) (msg line : string) :
    first_attempt store tr b w (Raise (Exception msg)) ->
    add_documents store (tr ++ [w; LogError line; Sleep 5]) b = Ok tt ->
    batch_done store b tr (tr ++ [w; LogError line; Sleep 5; AddDocuments b])
| batch_lost (w : event) (msg line msg2 line2 : string) :
    first_attempt store tr b w (Raise (Exception msg)) ->
    add_documents store (tr ++ [w; LogError line; Sleep 5]) b = Raise (Exception msg2) ->
    batch_done store b tr
      (tr ++ [w; LogError line; Sleep 5; AddDocuments b; LogError line2]).

(** The batches are dealt with one after the other, in order, none left
    out whatever happened to the ones before. *)
Inductive batches_done (store : Store) : list (list Document) -> list event -> list event -> Prop :=
| done_nil (tr : list event) : batches_done store [] tr tr
| done_cons (b : list Document) (bs : list (list Document)) (tr tr1 tr2 : list event) :
    batch_done store b tr tr1 ->
    batches_done store bs tr1 tr2 ->
    batches_done store (b :: bs) tr tr2.

(** A store that exists and never fails. *)
Definition store_up : Store :=
  mkStore (fun _ => true) (fun _ => Ok tt) (fun _ _ => Ok tt) (fun _ _ => Ok tt).

(** No store on disk yet; creating it times out; adding works until five
    things have happened and times out from then on. *)
Definition store_flaky : Store :=
  mkStore (fun _ => false) (fun _ => Ok tt)
          (fun _ _ => Raise (Exception "timed out"))
          (fun tr _ => if length tr <? 5 then Ok tt else Raise (Exception "timed out")).

(** Thirty-three chunks: one full batch and one chunk more. *)
Definition page (n : nat) : Document :=
  mkDocument ("page " +:+ pretty n) (<["page" := PInt (Z.of_nat n)]> ∅).
Definition chunks33 : list Document := map page (seq 0 33).
End StoreSpec.

Module ChatSpec.
Import RagEngine Chatbot IngestSpec.

(** Every failure of a service is an instance of [Exception]. *)
Definition raises_only_Exception (svc : Services) : Prop :=
  (forall tr q h e, rephrase_chain svc tr q h = Raise e -> is_Exception e = true)
  /\ (forall tr q e, retriever svc tr q = Raise e -> is_Exception e = true)
  /\ (forall tr q h c e, answer_chain svc tr q h c = Raise e -> is_Exception e = true).

(** [ev] is neither a call of the rephrase chain nor a call that carries
    a non-empty history. *)
Definition history_free (ev : event) : Prop :=
  match ev with
  | RephraseInvoke _ _ => False
  | AnswerInvoke _ h _ => h = []
  | RetrieverInvoke _ | LogError _ => True
  end.

(** All services work: the rephraser echoes, the retriever finds the
    chunk, the model answers with the context it was given. *)
Definition svc_up : Services :=
  mkServices (fun _ q _ => Ok q) (fun _ _ => Ok [a1c_chunk]) (fun _ _ _ c => Ok c).

(** The model behind the rephraser is down; the rest works. *)
Definition svc_rephrase_down : Services :=
  mkServices (fun _ _ _ => Raise (Exception "model unavailable"))
             (fun _ _ => Ok [a1c_chunk]) (fun _ _ _ _ => Ok "7%").

(** The index query fails; the models work. *)
Definition svc_retriever_down : Services :=
  mkServices (fun _ q _ => Ok q)
             (fun _ _ => Raise (Exception "index unreachable"))
             (fun _ _ _ _ => Ok "7%").

(** A session with one earlier turn. *)
Definition one_turn : World := mkWorld [("What is A1C?", "A blood test.")] [].
Definition fresh : World := mkWorld [] [].
End ChatSpec.

(** ** main.py, the [--chat] branch *)

Module Cli.
Import PyStr RagEngine Chatbot.

(** What a line typed at the prompt leads to. *)
Inductive action : Type :=
| Quit
| Clear
| Skip
| Ask (user_input : string).

(** Lines 59-69 of [main]: the line is stripped, then tested for the quit
    words, for the clear word and for emptiness, in this order. *)
Definition read_line (raw : string) : action :=
  let user_input := strip raw in
  if String.eqb (lower user_input) "q" || String.eqb (lower user_input) "quit" then Quit
  else if String.eqb (lower user_input) "c" then Clear
  else if String.eqb user_input "" then Skip
  else Ask user_input.

(** Where the loop stands after the lines typed so far: waiting at
    [input] for the next line; left by a quit word (line 62); or left by
    what [get_answer] let through, which is no [Exception]: a
    [KeyboardInterrupt] is caught at line 75 and ends the loop with a
    goodbye, anything else leaves [main] as it came. *)
Inductive loop_status : Type :=
| AtPrompt
| LeftByQuit
| LeftByException (e : exn).

Section WithServices.
Variable svc : Services.

(** Lines 57-80 of [main]: the loop, run over the lines typed so far.
    What is printed is left out.  When the lines are used up the loop is
    at [input] again ([AtPrompt]).  [get_answer] catches every
    [Exception]; should one come out all the same, line 78 catches it,
    logs it and the loop goes on.  Anything else that [get_answer] lets
    through leaves the loop ([LeftByException]). *)
Fixpoint chat_loop (lines : list string) (w : World) : loop_status * World :=
  match lines with
  | [] => (AtPrompt, w)
  | raw :: rest =>
      match read_line raw with
      | Quit => (LeftByQuit, w)
      | Clear => chat_loop rest (snd (clear_history w))
      | Skip => chat_loop rest w
      | Ask user_input =>
          match get_answer svc user_input w with
          | (Ok _, w') => chat_loop rest w'
          | (Raise (Exception msg), w') =>
              chat_loop rest
                (mkWorld (chat_history w')
                   (trace w' ++ [LogError ("Unexpected error: " +:+ msg)]))
          | (Raise (BaseException msg), w') =>
              (LeftByException (BaseException msg), w')
          end
      end
  end.
End WithServices.

End Cli.

(** ** app.py *)

Module App.
Import RagEngine Chatbot.

(** [ChatRequest(BaseModel)] *)
Record ChatRequest : Type := mkChatRequest { question : string }.

Section WithServices.
Variable svc : Services.

(** Lines 25-28: [POST /chat]. *)
Definition chat (request : ChatRequest) : M World (gmap string string) :=
  do answer <- get_answer svc (question request);
  ret {["answer" := answer]}.

(** Lines 30-33: [POST /clear]. *)
Definition clear_history : M World (gmap string string) :=
  do_ Chatbot.clear_history;
  ret {["status" := "history cleared"]}.
End WithServices.

End App.

(** ** src/utils.py and the choice of embeddings in src/vector_store.py *)

Module Config.
Import PyStr.

(** A line written with [logging.warning] or [logging.info]. *)
Inductive log_line : Type :=
| Warning (msg : string)
| Info (msg : string).

(** The truth value of [os.getenv(var)]: set, and not to the empty
    string.  [environ] is the environment once [load_dotenv] has run. *)
Definition is_set (environ : gmap string string) (var : string) : bool :=
  match environ !! var with
  | Some (String _ _) => true
  | Some "" | None => false
  end.

Definition required_vars : list string := ["GOOGLE_API_KEY"; "HUGGINGFACEHUB_API_TOKEN"].

(** utils.py lines 22-35: the line logged. *)
Definition load_env_vars (environ : gmap string string) : log_line :=
  let missing_vars := List.filter (fun var => negb (is_set environ var)) required_vars in
  match missing_vars with
  | [] => Info "Environment variables loaded successfully."
  | _ :: _ =>
      Warning ("Missing environment variables: " +:+ join ", " missing_vars
               +:+ ". Make sure they are set in .env or the system environment.")
  end.

(** What [get_embeddings] builds. *)
Inductive embeddings : Type :=
| HuggingFaceEndpointEmbeddings (model huggingfacehub_api_token : string)
| HuggingFaceEmbeddings (model_name : string).

(** vector_store.py lines 17-33: the embeddings chosen and the line
    logged. *)
Definition get_embeddings (environ : gmap string string) : embeddings * log_line :=
  let api_token := environ !! "HUGGINGFACEHUB_API_TOKEN" in
  let model_name := "BAAI/bge-m3" in
  match api_token with
  | Some (String c t) =>
      (HuggingFaceEndpointEmbeddings model_name (String c t),
       Info ("Using HuggingFace Endpoint Embeddings for " +:+ model_name))
  | Some "" | None =>
      (HuggingFaceEmbeddings model_name,
       Warning "HUGGINGFACEHUB_API_TOKEN not found. Falling back to local BGE-M3 (this may be slow to download).")
  end.
End Config.

(** ** More specification predicates *)

Module ExtraSpec.
Import PyStr Ingest VectorStore RagEngine Chatbot Cli.

(** The file system [fs] with another listing. *)
Definition with_listing (fs : FileSystem) (files : list string) : FileSystem :=
  mkFileSystem (path_exists fs) (fun _ => Ok files)
               (PyPDFLoader_load fs) (CSVLoader_load fs).

(** The file [f] of the directory has a supported extension and loads. *)
Definition contributes (fs : FileSystem) (data_dir f : string) : bool :=
  match load_file fs f (path_join data_dir f) with
  | Some (Ok _) => true
  | _ => false
  end.

(** No loader lets anything but an [Exception] through. *)
Definition loaders_raise_only_Exception (fs : FileSystem) : Prop :=
  (forall p e, PyPDFLoader_load fs p = Raise e -> is_Exception e = true)
  /\ (forall p e, CSVLoader_load fs p = Raise e -> is_Exception e = true).

(** A directory with a PDF that cannot be read, a guideline of one page
    and a file that is skipped. *)
Definition fs_mixed : FileSystem :=
  mkFileSystem (fun _ => true)
    (fun _ => Ok ["broken.pdf"; "guideline_diabetes.pdf"; "README.md"])
    (fun p => if contains p "broken" then Raise (Exception "EOF marker not found")
              else Ok [mkDocument "Target A1C is 7%."
                         (<["source" := PStr p]> (<["page" := PInt 0]> ∅))])
    (fun _ => Ok []).

(** Counting what a trace of the store holds. *)
Definition written_batch (ev : VectorStore.event) : option (list Document) :=
  match ev with
  | FromDocuments b | AddDocuments b => Some b
  | _ => None
  end.

Definition is_write (ev : VectorStore.event) : bool :=
  match written_batch ev with Some _ => true | None => false end.

Definition is_from_documents (ev : VectorStore.event) : bool :=
  match ev with FromDocuments _ => true | _ => false end.

Definition seconds_slept (ev : VectorStore.event) : nat :=
  match ev with Sleep n => n | _ => 0 end.

Definition count_writes (tr : list VectorStore.event) : nat :=
  length (List.filter is_write tr).

Definition total_sleep (tr : list VectorStore.event) : nat :=
  list_sum (map seconds_slept tr).

(** A store where every write fails, with an [Exception]. *)
Definition store_down : Store :=
  mkStore (fun _ => true) (fun _ => Ok tt)
          (fun _ _ => Raise (Exception "disk full"))
          (fun _ _ => Raise (Exception "disk full")).

(** The rephraser turns every follow-up into one standalone question; the
    retriever finds the chunk; the model answers "7%". *)
Definition svc_rewrite : Services :=
  mkServices (fun _ _ _ => Ok "What is the A1C target?")
             (fun _ _ => Ok [IngestSpec.a1c_chunk])
             (fun _ _ _ _ => Ok "7%").

(** Two questions in a row on the same session. *)
Definition two_turns (svc : Services) (q1 q2 : string) : M World string :=
  do_ get_answer svc q1; get_answer svc q2.

(** What a turn does first: with no history the retriever is called, with
    some history the rephrase chain is. *)
Definition first_call (query : string) (lc_history : list message) : RagEngine.event :=
  match lc_history with
  | [] => RetrieverInvoke query
  | _ :: _ => RephraseInvoke query lc_history
  end.

(** Counting what a trace of a turn holds. *)
Definition is_rephrase (ev : RagEngine.event) : bool :=
  match ev with RephraseInvoke _ _ => true | _ => false end.
Definition is_retrieve (ev : RagEngine.event) : bool :=
  match ev with RetrieverInvoke _ => true | _ => false end.
Definition is_answer (ev : RagEngine.event) : bool :=
  match ev with AnswerInvoke _ _ _ => true | _ => false end.
Definition count_if {A : Type} (p : A -> bool) (l : list A) : nat :=
  length (List.filter p l).

(** [s.count(c)] for one character *)
Fixpoint count_char (c : ascii) (s : string) : nat :=
  match s with
  | "" => 0
  | String a s' => (if Ascii.eqb a c then 1 else 0) + count_char c s'
  end.

(** A question as the prompt hands it on: not empty, without white space
    around it, and not one of the command words in any case. *)
Definition asked (q : string) : Prop :=
  q <> "" /\ strip q = q
  /\ lower q <> "q" /\ lower q <> "quit" /\ lower q <> "c".

(** The line, once stripped, is empty or is one of the command words in
    any case. *)
Definition command_or_blank (raw : string) : Prop :=
  strip raw = ""
  \/ lower (strip raw) = "q" \/ lower (strip raw) = "quit" \/ lower (strip raw) = "c".
End ExtraSpec.

(* ===================================================================== *)
(** * Part II: properties                                                 *)
(* ===================================================================== *)

(** ** Python strings *)

Section StringFacts.
Import PyStr.

Lemma append_nil_r (s : string) : s +:+ "" = s.
Proof. induction s as [| c s IH]; simpl; [reflexivity | now rewrite IH]. Qed.

Lemma append_assoc (a b c : string) : (a +:+ b) +:+ c = a +:+ (b +:+ c).
Proof. induction a as [| x a IH]; simpl; [reflexivity | now rewrite IH]. Qed.

Lemma startswith_spec (s p : string) :
  startswith s p = true <-> exists post, s = p +:+ post.
Proof.
  revert s; induction p as [| a p IH]; intros s; simpl.
  - split; [intros _; now exists s | reflexivity].
  - destruct s as [| b s].
    + split; [discriminate | intros [post H]; discriminate].
    + destruct (Ascii.eqb_spec a b) as [-> | Hne].
      * rewrite IH. split; intros [post H]; exists post; simpl in *; congruence.
      * split; [discriminate | intros [post H]; congruence].
Qed.

Lemma contains_spec (s sub : string) :
  contains s sub = true <-> exists pre post, s = pre +:+ sub +:+ post.
Proof.
  induction s as [| c s IH]; simpl.
  - destruct (startswith "" sub) eqn:Hst.
    + apply startswith_spec in Hst as [post H].
      split; [intros _; now exists "", post | reflexivity].
    + split; [discriminate |].
      intros (pre & post & H). destruct pre; [| discriminate].
      assert (startswith "" sub = true) by (apply startswith_spec; now exists post).
      congruence.
  - destruct (startswith (String c s) sub) eqn:Hst.
    + apply startswith_spec in Hst as [post H].
      split; [intros _; now exists "", post | reflexivity].
    + rewrite IH. split.
      * intros (pre & post & ->). now exists (String c pre), post.
      * intros (pre & post & H). destruct pre as [| x pre].
        -- assert (startswith (String c s) sub = true)
             by (apply startswith_spec; now exists post).
           congruence.
        -- injection H as _ ->. now exists pre, post.
Qed.

Lemma endswith_spec (s suf : string) :
  endswith s suf = true <-> exists pre, s = pre +:+ suf.
Proof.
  induction s as [| c s IH]; cbn [endswith].
  - destruct (String.eqb_spec "" suf) as [<- | Hne].
    + split; [intros _; now exists "" | reflexivity].
    + split; [discriminate |]. intros [pre H].
      destruct pre; simpl in H; [congruence | discriminate].
  - destruct (String.eqb_spec (String c s) suf) as [<- | Hne].
    + split; [intros _; now exists "" | reflexivity].
    + rewrite IH. split.
      * intros [pre ->]. now exists (String c pre).
      * intros [pre H]. destruct pre as [| x pre]; simpl in H; [congruence |].
        injection H as _ ->. now exists pre.
Qed.

Lemma lower_append (a b : string) : lower (a +:+ b) = lower a +:+ lower b.
Proof. induction a as [| c a IH]; simpl; [reflexivity | now rewrite IH]. Qed.

(** A split of [lower s] comes from a split of [s]. *)
Lemma lower_split (s a b : string) :
  lower s = a +:+ b -> exists a' b', s = a' +:+ b' /\ lower a' = a /\ lower b' = b.
Proof.
  revert s; induction a as [| x a IH]; intros s H; simpl in H.
  - now exists "", s.
  - destruct s as [| c s]; [discriminate |]. simpl in H. injection H as Hx H.
    destruct (IH s H) as (a' & b' & -> & <- & <-).
    exists (String c a'), b'. simpl. now rewrite Hx.
Qed.

Lemma has_char_append (c : ascii) (a b : string) :
  has_char c (a +:+ b) = has_char c a || has_char c b.
Proof.
  induction a as [| x a IH]; simpl; [reflexivity |].
  now rewrite IH, orb_assoc.
Qed.

Lemma basename_no_slash (f : string) : has_char SLASH f = false -> basename f = f.
Proof.
  destruct f as [| c f]; simpl; [reflexivity |].
  intros H. apply orb_false_elim in H as [Hc Hf]. now rewrite Hf, Hc.
Qed.

Lemma basename_after_slash (d f : string) :
  has_char SLASH f = false -> basename (d +:+ char SLASH +:+ f) = f.
Proof.
  intros Hf. induction d as [| c d IH]; simpl.
  - now rewrite Hf.
  - rewrite has_char_append. simpl. now rewrite orb_true_r.
Qed.

Lemma lstrip_all_space (s : string) : all_space s = true -> lstrip s = "".
Proof.
  induction s as [| c s IH]; simpl; [reflexivity |].
  intros H. apply andb_true_iff in H as [-> Hs]. auto.
Qed.

Lemma all_space_lstrip (s : string) : all_space (lstrip s) = true -> all_space s = true.
Proof.
  induction s as [| c s IH]; simpl; [reflexivity |].
  destruct (is_space c) eqn:Hc; simpl; [exact IH | now rewrite Hc].
Qed.

Lemma rstrip_empty (s : string) : rstrip s = "" -> all_space s = true.
Proof.
  induction s as [| c s IH]; simpl; [reflexivity |].
  destruct (rstrip s); [| discriminate].
  destruct (is_space c); [intros _; now apply IH | discriminate].
Qed.

Lemma strip_empty_iff (s : string) : strip s = "" <-> all_space s = true.
Proof.
  unfold strip. split.
  - intros H. now apply all_space_lstrip, rstrip_empty.
  - intros H. now rewrite lstrip_all_space.
Qed.

Lemma split_not_nil (sep : ascii) (s : string) : split sep s <> [].
Proof.
  destruct s as [| c s]; simpl; [discriminate |].
  destruct (Ascii.eqb c sep); [discriminate |].
  destruct (split sep s); discriminate.
Qed.

Lemma split_no_sep (sep : ascii) (s : string) :
  Forall (fun l => has_char sep l = false) (split sep s).
Proof.
  induction s as [| c s IH]; simpl.
  - repeat constructor.
  - destruct (Ascii.eqb_spec c sep) as [-> | Hne].
    + constructor; [reflexivity | exact IH].
    + apply Ascii.eqb_neq in Hne. destruct (split sep s) as [| l ls].
      * repeat constructor. simpl. now rewrite Hne.
      * inversion IH; subst.
        constructor; [simpl; now rewrite Hne | assumption].
Qed.

Lemma split_append_sep (sep : ascii) (l rest : string) :
  has_char sep l = false ->
  split sep (l +:+ char sep +:+ rest) = l :: split sep rest.
Proof.
  induction l as [| c l IH]; simpl.
  - intros _. now rewrite Ascii.eqb_refl.
  - intros H. apply orb_false_elim in H as [Hc Hl].
    specialize (IH Hl). simpl in IH. rewrite Hc, IH. reflexivity.
Qed.

Lemma split_single (sep : ascii) (l : string) :
  has_char sep l = false -> split sep l = [l].
Proof.
  induction l as [| c l IH]; simpl; [reflexivity |].
  intros H. apply orb_false_elim in H as [Hc Hl].
  rewrite Hc, (IH Hl). reflexivity.
Qed.

(** Splitting what was joined gives the lines back. *)
Lemma split_join (sep : ascii) (ls : list string) :
  ls <> [] ->
  Forall (fun l => has_char sep l = false) ls ->
  split sep (join (char sep) ls) = ls.
Proof.
  induction ls as [| l ls IH]; [congruence |].
  intros _ Hall. inversion Hall as [| ? ? Hl Hls]; subst.
  destruct ls as [| l' ls].
  - simpl. now apply split_single.
  - change (join (char sep) (l :: l' :: ls))
      with (l +:+ char sep +:+ join (char sep) (l' :: ls)).
    rewrite split_append_sep by assumption.
    rewrite IH; [reflexivity | discriminate | assumption].
Qed.
(** Every path has a last component, and it is what [basename] returns. *)
Lemma basename_last_component (p : string) :
  IngestSpec.last_component p (basename p).
Proof.
  unfold IngestSpec.last_component.
  induction p as [| c p IH]; cbn [basename].
  - split; [reflexivity | now left].
  - destruct (has_char SLASH p) eqn:Hp.
    + destruct IH as [Hb [Heq | [dir Hdir]]].
      * rewrite <- Heq in Hb. congruence.
      * split; [exact Hb |]. right. exists (String c dir).
        cbn [String.append]. now f_equal.
    + destruct (Ascii.eqb c SLASH) eqn:Hc.
      * split; [exact Hp |]. right. exists "". apply Ascii.eqb_eq in Hc. now subst.
      * split; [simpl; now rewrite Hc, Hp | now left].
Qed.

(** The string functions on sample inputs, as Python evaluates them. *)
Example split_samples :
  split LF "" = [""]
  /\ split LF ("a" +:+ char LF) = ["a"; ""]
  /\ split LF ("a" +:+ char LF +:+ char LF +:+ "b") = ["a"; ""; "b"].
Proof. repeat split. Qed.

Example strip_samples :
  strip "  A1C  " = "A1C"
  /\ strip (String (ascii_of_nat 9) "p. 3 " +:+ char LF) = "p. 3"
  /\ strip "   " = ""
  /\ strip "a b" = "a b".
Proof. repeat split. Qed.

Example path_samples :
  path_join "data" "guideline.pdf" = "data/guideline.pdf"
  /\ path_join "data/" "guideline.pdf" = "data/guideline.pdf"
  /\ path_join "" "guideline.pdf" = "guideline.pdf"
  /\ basename "data/2024/Guideline.PDF" = "Guideline.PDF"
  /\ basename "Guideline.PDF" = "Guideline.PDF"
  /\ basename "data/" = ""
  /\ lower "Guideline.PDF" = "guideline.pdf".
Proof. repeat split. Qed.
End StringFacts.

(** ** The conversational turn *)

Section ChatProofs.
Import RagEngine Chatbot ChatSpec.
Variable svc : Services.

Lemma lc_history_of_nil (h : list (string * string)) :
  lc_history_of h = [] <-> h = [].
Proof.
  split; [| intros ->; reflexivity].
  destruct h as [| [q a] h]; [reflexivity | discriminate].
Qed.

(** With an empty history the retriever is called at once, with the
    question as given. *)
Lemma retrieve_empty_history (question : string) (tr : list event) :
  _history_aware_retrieve svc (mkInp question []) tr
  = (retriever svc tr question, tr ++ [RetrieverInvoke question]).
Proof. reflexivity. Qed.

(** With a non-empty history the rephrase chain is called first; the
    retriever is called with its output, and not at all when it fails. *)
Lemma retrieve_with_history (question : string) (m : message) (h : list message)
      (tr : list event) :
  let tr1 := tr ++ [RephraseInvoke question (m :: h)] in
  _history_aware_retrieve svc (mkInp question (m :: h)) tr
  = match rephrase_chain svc tr question (m :: h) with
    | Ok q' => (retriever svc tr1 q', tr1 ++ [RetrieverInvoke q'])
    | Raise e => (Raise e, tr1)
    end.
Proof.
  cbv zeta. unfold _history_aware_retrieve, bind, invoke; simpl.
  destruct (rephrase_chain svc tr question (m :: h)); reflexivity.
Qed.

(** The full chain unfolded after retrieval. *)
Lemma full_chain_unfold (inp : Inp) (tr : list event) :
  _full_chain svc inp tr
  = match _history_aware_retrieve svc inp tr with
    | (Ok docs, tr1) =>
        let ctx := format_docs docs in
        let tr2 := tr1 ++ [AnswerInvoke (inp_input inp) (inp_chat_history inp) ctx] in
        match answer_chain svc tr1 (inp_input inp) (inp_chat_history inp) ctx with
        | Ok answer => (Ok (mkResponse (inp_input inp) (inp_chat_history inp) docs answer), tr2)
        | Raise e => (Raise e, tr2)
        end
    | (Raise e, tr1) => (Raise e, tr1)
    end.
Proof.
  unfold _full_chain, bind, invoke, ret.
  destruct (_history_aware_retrieve svc inp tr) as [[docs | e] tr1]; [| reflexivity].
  cbv zeta.
  destruct (answer_chain svc tr1 _ _ _); reflexivity.
Qed.

(** [get_answer] on a non-empty question, by the outcome of the chain. *)
Lemma get_answer_unfold (query : string) (w : World) :
  query <> "" ->
  get_answer svc query w
  = match _full_chain svc (mkInp query (lc_history_of (chat_history w))) (trace w) with
    | (Ok response, tr) =>
        (Ok (r_answer response),
         mkWorld (chat_history w ++ [(query, r_answer response)]) tr)
    | (Raise (Exception msg), tr) =>
        (Ok APOLOGY,
         mkWorld (chat_history w) (tr ++ [LogError ("Error generating answer: " +:+ msg)]))
    | (Raise (BaseException msg), tr) =>
        (Raise (BaseException msg), mkWorld (chat_history w) tr)
    end.
Proof.
  intros Hq. unfold get_answer.
  destruct (String.eqb_spec query "") as [-> | _]; [congruence |].
  unfold try_except, bind, lift, append_turn, ret.
  destruct (_full_chain svc _ (trace w)) as [[response | [msg | msg]] tr]; reflexivity.
Qed.

(** Under [raises_only_Exception] the chain raises instances of
    [Exception] only. *)
Lemma full_chain_raises (inp : Inp) (tr tr' : list event) (e : exn) :
  raises_only_Exception svc ->
  _full_chain svc inp tr = (Raise e, tr') ->
  is_Exception e = true.
Proof.
  intros (Hre & Hrt & Han). rewrite full_chain_unfold.
  destruct inp as [q [| m h]].
  - rewrite retrieve_empty_history.
    destruct (retriever svc tr q) as [docs | e0] eqn:Hr; cbv zeta.
    + destruct (answer_chain svc _ _ _ _) eqn:Ha; intros [= <- _]; eauto.
    + intros [= <- _]; eauto.
  - rewrite retrieve_with_history. cbv zeta.
    destruct (rephrase_chain svc tr q (m :: h)) as [q' | e0] eqn:Hq.
    + destruct (retriever svc _ q') as [docs | e1] eqn:Hr.
      * destruct (answer_chain svc _ _ _ _) eqn:Ha; intros [= <- _]; eauto.
      * intros [= <- _]; eauto.
    + intros [= <- _]; eauto.
Qed.
End ChatProofs.

Import RagEngine Chatbot ChatSpec.

(** C1 (as amended): when the history is non-empty and the call of the
    rephrase chain raises an [Exception], nothing falls back to the
    original question: neither the retriever nor the answer chain is
    called, the error is logged, [get_answer] returns the fixed apology and
    the history is left as it was. *)
Theorem rephrase_failure_gives_apology (svc : Services) (query : string) (w : World)
        (msg : string) :
  query <> "" ->
  chat_history w <> [] ->
  rephrase_chain svc (trace w) query (lc_history_of (chat_history w))
  = Raise (Exception msg) ->
  get_answer svc query w
  = (Ok APOLOGY,
     mkWorld (chat_history w)
       (trace w ++ [RephraseInvoke query (lc_history_of (chat_history w));
                    LogError ("Error generating answer: " +:+ msg)])).
Proof.
  intros Hq Hh Hfail.
  rewrite get_answer_unfold by assumption.
  rewrite full_chain_unfold.
  destruct (lc_history_of (chat_history w)) as [| m h] eqn:Hlc.
  - apply lc_history_of_nil in Hlc. contradiction.
  - rewrite retrieve_with_history. cbv zeta. rewrite Hfail.
    rewrite <- app_assoc. reflexivity.
Qed.

Lemma rephrase_failure_gives_apology_witness :
  get_answer svc_rephrase_down "Is that for adults?"
    (mkWorld [("What is A1C?", "A blood test."); ("And the target?", "7%")] [])
  = (Ok APOLOGY,
     mkWorld [("What is A1C?", "A blood test."); ("And the target?", "7%")]
       [RephraseInvoke "Is that for adults?"
          [HumanMessage "What is A1C?"; AIMessage "A blood test.";
           HumanMessage "And the target?"; AIMessage "7%"];
        LogError "Error generating answer: model unavailable"]).
Proof.
  apply (rephrase_failure_gives_apology svc_rephrase_down "Is that for adults?"
           (mkWorld [("What is A1C?", "A blood test."); ("And the target?", "7%")] [])
           "model unavailable");
    [discriminate | discriminate | reflexivity].
Defined.

(** C1 as stated fails: with one earlier turn and a rephrase model that is
    down, the turn ends in the apology, the retriever is never called and
    no turn is appended, although the same services answer "7%" to the
    same question when no rewriting is needed. *)
Lemma rephrase_failure_counterexample :
  get_answer svc_rephrase_down "And the target?" one_turn
  = (Ok APOLOGY,
     mkWorld [("What is A1C?", "A blood test.")]
       [RephraseInvoke "And the target?"
          [HumanMessage "What is A1C?"; AIMessage "A blood test."];
        LogError "Error generating answer: model unavailable"])
  /\ fst (get_answer svc_rephrase_down "And the target?" fresh) = Ok "7%"
  /\ String.eqb APOLOGY "7%" = false.
Proof. repeat split; vm_compute; reflexivity. Qed.

(** C2 (as amended): when the query of the retriever raises an
    [Exception], whether the question was rewritten before or not, no empty
    result stands in for it: the answer chain is not called, the error is
    logged, [get_answer] returns the fixed apology and the history is left
    as it was. *)
Theorem retrieval_failure_gives_apology (svc : Services) (query : string) (w : World)
        (q' : string) (tr1 : list event) (msg : string) :
  query <> "" ->
  (chat_history w = [] /\ q' = query /\ tr1 = trace w)
  \/ (chat_history w <> []
      /\ rephrase_chain svc (trace w) query (lc_history_of (chat_history w)) = Ok q'
      /\ tr1 = trace w ++ [RephraseInvoke query (lc_history_of (chat_history w))]) ->
  retriever svc tr1 q' = Raise (Exception msg) ->
  get_answer svc query w
  = (Ok APOLOGY,
     mkWorld (chat_history w)
       (tr1 ++ [RetrieverInvoke q'; LogError ("Error generating answer: " +:+ msg)])).
Proof.
  intros Hq Hpre Hfail.
  rewrite get_answer_unfold by assumption.
  rewrite full_chain_unfold.
  destruct Hpre as [(Hh & -> & ->) | (Hh & Hre & ->)].
  - rewrite Hh. simpl lc_history_of. rewrite retrieve_empty_history, Hfail.
    rewrite <- app_assoc. reflexivity.
  - destruct (lc_history_of (chat_history w)) as [| m h] eqn:Hlc.
    + apply lc_history_of_nil in Hlc. contradiction.
    + rewrite retrieve_with_history. cbv zeta. rewrite Hre, Hfail.
      rewrite <- (app_assoc _ [RetrieverInvoke q']). reflexivity.
Qed.

Lemma retrieval_failure_gives_apology_witness :
  get_answer svc_retriever_down "And the target?" one_turn
  = (Ok APOLOGY,
     mkWorld [("What is A1C?", "A blood test.")]
       ([RephraseInvoke "And the target?"
           [HumanMessage "What is A1C?"; AIMessage "A blood test."]]
        ++ [RetrieverInvoke "And the target?";
            LogError "Error generating answer: index unreachable"])).
Proof.
  apply (retrieval_failure_gives_apology svc_retriever_down "And the target?" one_turn
           "And the target?"
           [RephraseInvoke "And the target?"
              [HumanMessage "What is A1C?"; AIMessage "A blood test."]]
           "index unreachable");
    [discriminate
    | right; split; [discriminate | split; reflexivity]
    | reflexivity].
Defined.

(** C2 as stated fails: on a fresh session with an index that cannot be
    queried, the turn ends in the apology and the answer chain is never
    called (it answers "7%" whenever it is called), so no synthesis over an
    empty context takes place. *)
Lemma retrieval_failure_counterexample :
  get_answer svc_retriever_down "What is the A1C target?" fresh
  = (Ok APOLOGY,
     mkWorld []
       [RetrieverInvoke "What is the A1C target?";
        LogError "Error generating answer: index unreachable"])
  /\ answer_chain svc_retriever_down [RetrieverInvoke "What is the A1C target?"]
       "What is the A1C target?" [] (format_docs []) = Ok "7%"
  /\ String.eqb APOLOGY "7%" = false.
Proof. repeat split; vm_compute; reflexivity. Qed.

(** C3: when the services fail with instances of [Exception] only,
    [get_answer] returns a string and does not raise, for every question
    and every world.  The empty question changes nothing.  Otherwise, if
    the chain succeeds its answer is returned and exactly the turn
    (question, answer) is appended; if the chain raises, the apology is
    returned and the history is exactly what it was. *)
Theorem get_answer_total_atomic (svc : Services) (query : string) (w : World) :
  raises_only_Exception svc ->
  exists (answer : string) (w' : World),
    get_answer svc query w = (Ok answer, w')
    /\ (query = "" -> answer = "" /\ w' = w)
    /\ (query <> "" ->
        match fst (_full_chain svc (mkInp query (lc_history_of (chat_history w))) (trace w)) with
        | Ok response =>
            answer = r_answer response
            /\ chat_history w' = chat_history w ++ [(query, answer)]
        | Raise _ =>
            answer = APOLOGY /\ chat_history w' = chat_history w
        end).
Proof.
  intros Hsvc.
  destruct (String.eqb_spec query "") as [-> | Hq].
  - exists "", w. repeat split; congruence.
  - rewrite get_answer_unfold by assumption.
    destruct (_full_chain svc _ (trace w)) as [[response | e] tr] eqn:Hchain.
    + eexists _, _. split; [reflexivity |]. split; [congruence |].
      intros _. simpl. split; reflexivity.
    + pose proof (full_chain_raises svc _ _ _ _ Hsvc Hchain) as He.
      destruct e as [msg | msg]; [| discriminate].
      eexists _, _. split; [reflexivity |]. split; [congruence |].
      intros _. simpl. split; reflexivity.
Qed.

Lemma svc_up_raises_only_Exception : raises_only_Exception svc_up.
Proof. repeat split; intros; discriminate. Qed.

Lemma svc_retriever_down_raises_only_Exception : raises_only_Exception svc_retriever_down.
Proof.
  repeat split; intros; try discriminate.
  match goal with H : retriever _ _ _ = Raise _ |- _ => injection H as <- end.
  reflexivity.
Qed.

Lemma get_answer_total_atomic_witness :
  exists (answer : string) (w' : World),
    get_answer svc_retriever_down "And the target?" one_turn = (Ok answer, w')
    /\ ("And the target?" = "" -> answer = "" /\ w' = one_turn)
    /\ ("And the target?" <> "" ->
        match fst (_full_chain svc_retriever_down
                     (mkInp "And the target?" (lc_history_of (chat_history one_turn)))
                     (trace one_turn)) with
        | Ok response =>
            answer = r_answer response
            /\ chat_history w' = chat_history one_turn ++ [("And the target?", answer)]
        | Raise _ =>
            answer = APOLOGY /\ chat_history w' = chat_history one_turn
        end).
Proof.
  apply (get_answer_total_atomic svc_retriever_down "And the target?" one_turn
           svc_retriever_down_raises_only_Exception).
Defined.

(** The scenario of a fresh session: the question reaches the retriever
    unchanged and the context block names the source of the chunk. *)
Example fresh_turn_cites_source :
  get_answer svc_up "What is the A1C target?" fresh
  = (Ok ("Source: guideline_diabetes.pdf (Page 0) [Type: guideline, Rank: 1]"
         +:+ PyStr.char PyStr.LF +:+ "Content: Target A1C is 7%." +:+ PyStr.char PyStr.LF),
     mkWorld
       [("What is the A1C target?",
         "Source: guideline_diabetes.pdf (Page 0) [Type: guideline, Rank: 1]"
         +:+ PyStr.char PyStr.LF +:+ "Content: Target A1C is 7%." +:+ PyStr.char PyStr.LF)]
       [RetrieverInvoke "What is the A1C target?";
        AnswerInvoke "What is the A1C target?" []
          ("Source: guideline_diabetes.pdf (Page 0) [Type: guideline, Rank: 1]"
           +:+ PyStr.char PyStr.LF +:+ "Content: Target A1C is 7%." +:+ PyStr.char PyStr.LF)]).
Proof. vm_compute. reflexivity. Qed.

(** What [except Exception] does not catch leaves [get_answer] as it came,
    and the history is untouched. *)
Remark get_answer_propagates_BaseException (svc : Services) (query : string) (w : World)
       (msg : string) (tr : list event) :
  query <> "" ->
  _full_chain svc (mkInp query (lc_history_of (chat_history w))) (trace w)
  = (Raise (BaseException msg), tr) ->
  get_answer svc query w = (Raise (BaseException msg), mkWorld (chat_history w) tr).
Proof.
  intros Hq Hchain. rewrite get_answer_unfold by assumption. rewrite Hchain. reflexivity.
Qed.

(** C6: the empty question returns the empty string and leaves the world
    as it is (no call, no log line, the same turns).  After
    [clear_history], whatever the turns before, the history is empty, and
    the next question reaches the retriever first and unchanged: no event
    of that turn is a call of the rephrase chain, and the answer chain, if
    called, receives the empty history. *)
Theorem empty_question_and_reset (svc : Services) (w : World) :
  get_answer svc "" w = (Ok "", w)
  /\ (let w0 := snd (clear_history w) in
      fst (clear_history w) = Ok tt
      /\ chat_history w0 = []
      /\ trace w0 = trace w
      /\ forall query : string,
          query <> "" ->
          exists rest : list event,
            trace (snd (get_answer svc query w0)) = trace w ++ RetrieverInvoke query :: rest
            /\ Forall history_free rest).
Proof.
  split; [reflexivity |].
  cbv zeta. simpl. repeat split.
  intros query Hq.
  rewrite get_answer_unfold by assumption. simpl chat_history. simpl trace.
  simpl lc_history_of.
  rewrite full_chain_unfold, retrieve_empty_history.
  destruct (retriever svc (trace w) query) as [docs | [msg | msg]]; cbv zeta.
  - destruct (answer_chain svc _ _ _ _) as [answer | [msg | msg]]; simpl;
      rewrite <- ?app_assoc; simpl; eexists; (split; [reflexivity |]);
      repeat constructor.
  - simpl. rewrite <- app_assoc. simpl. eexists; split; [reflexivity |].
    repeat constructor.
  - simpl. eexists; split; [reflexivity |]. constructor.
Qed.

(** C7: with an empty history the question is passed to the retriever
    unchanged and the retriever is the only call made; with a non-empty
    history the first thing done is the call of the rephrase chain on the
    question and that history.  The session hands the chain an empty
    history exactly when it holds no turn. *)
Theorem rewriter_identity_on_empty_history (svc : Services) (question : string)
        (tr : list event) :
  _history_aware_retrieve svc (mkInp question []) tr
  = (retriever svc tr question, tr ++ [RetrieverInvoke question])
  /\ (forall (m : message) (h : list message),
         (tr ++ [RephraseInvoke question (m :: h)])
           `prefix_of` snd (_history_aware_retrieve svc (mkInp question (m :: h)) tr))
  /\ (forall history : list (string * string),
         lc_history_of history = [] <-> history = []).
Proof.
  split; [apply retrieve_empty_history |].
  split; [| apply lc_history_of_nil].
  intros m h. rewrite retrieve_with_history. cbv zeta.
  destruct (rephrase_chain svc tr question (m :: h)); simpl.
  - apply prefix_app_r. reflexivity.
  - reflexivity.
Qed.

(** ** Ingestion *)

Import PyStr Ingest IngestSpec.

Lemma ci_contains_spec (name sub : string) :
  contains (lower name) sub = true <-> ci_contains name sub.
Proof.
  rewrite contains_spec. unfold ci_contains. split.
  - intros (pre & post & H).
    apply lower_split in H as (pre' & rest & -> & <- & H).
    apply lower_split in H as (mid & post' & -> & <- & <-).
    now exists pre', mid, post'.
  - intros (pre & mid & post & -> & <-).
    exists (lower pre), (lower post). now rewrite !lower_append.
Qed.

Lemma last_component_basename (path name : string) :
  last_component path name -> basename path = name.
Proof.
  intros [Hname [-> | [dir ->]]].
  - now apply basename_no_slash.
  - now apply basename_after_slash.
Qed.

(** C5 (as amended): the classification looks at the last component of the
    path with case ignored for the three words, and at the whole path,
    character for character, for the extension: a name in which
    "guideline" occurs gives ('guideline', 1); otherwise one in which
    "textbook" occurs gives ('textbook', 2); otherwise one in which "faq"
    occurs, or a path that ends with exactly ".csv", gives ('faq', 3);
    otherwise ('textbook', 2). *)
Theorem determine_metadata_cases (file_path filename : string) :
  last_component file_path filename ->
  (ci_contains filename "guideline" ->
   determine_metadata file_path = ("guideline", 1%Z))
  /\ (~ ci_contains filename "guideline" ->
      ci_contains filename "textbook" ->
      determine_metadata file_path = ("textbook", 2%Z))
  /\ (~ ci_contains filename "guideline" ->
      ~ ci_contains filename "textbook" ->
      ci_contains filename "faq" \/ has_suffix file_path ".csv" ->
      determine_metadata file_path = ("faq", 3%Z))
  /\ (~ ci_contains filename "guideline" ->
      ~ ci_contains filename "textbook" ->
      ~ ci_contains filename "faq" ->
      ~ has_suffix file_path ".csv" ->
      determine_metadata file_path = ("textbook", 2%Z)).
Proof.
  intros Hlast. apply last_component_basename in Hlast.
  unfold determine_metadata. rewrite Hlast.
  pose proof (ci_contains_spec filename "guideline") as Hg.
  pose proof (ci_contains_spec filename "textbook") as Ht.
  pose proof (ci_contains_spec filename "faq") as Hf.
  pose proof (endswith_spec file_path ".csv") as Hc.
  fold (has_suffix file_path ".csv") in Hc.
  destruct (contains (lower filename) "guideline");
    destruct (contains (lower filename) "textbook");
    destruct (contains (lower filename) "faq");
    destruct (endswith file_path ".csv"); cbn [orb];
    repeat split; intros; try reflexivity;
    repeat match goal with
           | H : _ \/ _ |- _ => destruct H
           | H : ~ ?P, H' : _ <-> ?P |- _ => exfalso; apply H, H'; reflexivity
           | H : ?P, H' : _ <-> ?P |- _ => apply H' in H; discriminate
           end.
Qed.

Lemma determine_metadata_cases_witness :
  determine_metadata "data/Clinic_FAQ.pdf" = ("faq", 3%Z).
Proof.
  refine (proj1 (proj2 (proj2
            (determine_metadata_cases "data/Clinic_FAQ.pdf" "Clinic_FAQ.pdf" _))) _ _ _).
  - split; [reflexivity | right; now exists "data"].
  - intros H. apply ci_contains_spec in H. vm_compute in H. discriminate.
  - intros H. apply ci_contains_spec in H. vm_compute in H. discriminate.
  - left. now exists "Clinic_", "FAQ", ".pdf".
Defined.

(** C5 as stated fails on an upper-case extension: the name holds none of
    the three words, the extension is the CSV one when case is ignored, and
    the result is the default ('textbook', 2), not ('faq', 3).  The same
    name with a lower-case extension is classified ('faq', 3). *)
Lemma determine_metadata_counterexample :
  determine_metadata "data/LAB_RESULTS.CSV" = ("textbook", 2%Z)
  /\ lower (basename "data/LAB_RESULTS.CSV") = "lab_results.csv"
  /\ endswith (lower "data/LAB_RESULTS.CSV") ".csv" = true
  /\ determine_metadata "data/LAB_RESULTS.csv" = ("faq", 3%Z).
Proof. repeat split; vm_compute; reflexivity. Qed.

Lemma keep_line_spec (line : string) :
  keep_line line = true <-> 3 < String.length (strip line) \/ all_space line = true.
Proof.
  unfold keep_line. rewrite orb_true_iff, Nat.ltb_lt, String.eqb_eq, strip_empty_iff.
  reflexivity.
Qed.

Section IngestProofs.
Variable clean : string -> string.

(** What [update_doc] leaves in the metadata. *)
Lemma update_doc_metadata (filename doc_type : string) (rank : Z) (doc : Document) :
  let m := metadata (update_doc clean filename doc_type rank doc) in
  m !! "source" = Some (PStr filename)
  /\ m !! "type" = Some (PStr doc_type)
  /\ m !! "rank" = Some (PInt rank)
  /\ m !! "page" = Some (default (PStr "N/A") (metadata doc !! "page"))
  /\ (forall k : string, ~ In k stamped_keys -> m !! k = metadata doc !! k).
Proof.
  cbv zeta. unfold update_doc. cbn [metadata].
  set (m3 := <["rank":=PInt rank]> (<["type":=PStr doc_type]>
               (<["source":=PStr filename]> (metadata doc)))).
  assert (Hpage : m3 !! "page" = metadata doc !! "page").
  { unfold m3. now rewrite !lookup_insert_ne by discriminate. }
  assert (Hother : forall k : string, ~ In k stamped_keys -> m3 !! k = metadata doc !! k).
  { intros k Hk. unfold m3, stamped_keys in *. cbn [In] in Hk.
    rewrite !lookup_insert_ne; [reflexivity | intros <-; tauto ..]. }
  destruct (m3 !! "page") as [v |] eqn:Hm3.
  - rewrite Hm3, <- Hpage. unfold m3 at 1 2 3.
    rewrite !lookup_insert_ne by discriminate.
    rewrite lookup_insert_eq.
    rewrite (lookup_insert_ne _ "rank" "type") by discriminate.
    rewrite lookup_insert_eq.
    rewrite lookup_insert_eq. repeat split; try reflexivity. exact Hother.
  - rewrite lookup_insert_eq, <- Hpage.
    rewrite !(lookup_insert_ne _ "page") by discriminate.
    unfold m3 at 1 2 3.
    rewrite !lookup_insert_ne by discriminate.
    rewrite lookup_insert_eq.
    rewrite (lookup_insert_ne _ "rank" "type") by discriminate.
    rewrite lookup_insert_eq.
    rewrite lookup_insert_eq. repeat split; try reflexivity.
    intros k Hk. rewrite lookup_insert_ne; [now apply Hother |].
    intros <-. apply Hk. unfold stamped_keys. cbn [In]. tauto.
Qed.
End IngestProofs.

Section LoadProofs.
Variable clean : string -> string.
Variable fs : FileSystem.

Lemma loaded_from_cons (data_dir f : string) (files : list string) (d : Document) :
  loaded_from clean fs data_dir files d -> loaded_from clean fs data_dir (f :: files) d.
Proof.
  intros (filename & loaded & doc & Hin & H). exists filename, loaded, doc.
  split; [now right | exact H].
Qed.

(** Everything the loop returns was in the accumulator or comes from a
    file that loaded. *)
Lemma load_all_origin (data_dir : string) (files : list string) :
  forall (acc documents : list Document) (d : Document),
    load_all clean fs data_dir files acc = Ok documents ->
    In d documents ->
    In d acc \/ loaded_from clean fs data_dir files d.
Proof.
  induction files as [| f files IH]; intros acc documents d Hrun Hd; simpl in Hrun.
  - injection Hrun as <-. now left.
  - destruct (determine_metadata (path_join data_dir f)) as [doc_type rank] eqn:Hdm.
    destruct (load_file fs f (path_join data_dir f)) as [[loaded | [msg | msg]] |] eqn:Hload;
      try discriminate.
    + destruct (IH _ _ _ Hrun Hd) as [Hacc | Hfrom].
      * apply in_app_iff in Hacc as [Hacc | Hnew]; [now left |].
        apply in_map_iff in Hnew as (doc & <- & Hdoc). right.
        exists f, loaded, doc. rewrite Hdm. simpl. repeat split; auto.
      * right. now apply loaded_from_cons.
    + destruct (IH _ _ _ Hrun Hd) as [Hacc | Hfrom];
        [now left | right; now apply loaded_from_cons].
    + destruct (IH _ _ _ Hrun Hd) as [Hacc | Hfrom];
        [now left | right; now apply loaded_from_cons].
Qed.

(** When no file of the listing yields documents, the accumulator comes
    back as it went in. *)
Lemma load_all_nothing (data_dir : string) (files : list string) (acc : list Document) :
  (forall f, In f files ->
             load_file fs f (path_join data_dir f) = None
             \/ exists msg, load_file fs f (path_join data_dir f)
                            = Some (Raise (Exception msg))) ->
  load_all clean fs data_dir files acc = Ok acc.
Proof.
  induction files as [| f files IH]; intros Hall; simpl; [reflexivity |].
  destruct (determine_metadata (path_join data_dir f)) as [doc_type rank].
  destruct (Hall f (or_introl eq_refl)) as [-> | [msg ->]];
    apply IH; intros g Hg; apply Hall; now right.
Qed.
End LoadProofs.

(** C4: every chunk that [ingest_documents] returns comes from a page or
    row of a file of the listing that loaded, and carries in its metadata
    the file name as [source], the type and the rank that
    [determine_metadata] gives for the path of that file, the page the
    loader gave (or "N/A" when it gave none), and every other entry of the
    loader unchanged; its content is a piece of the cleaned content of that
    page or row. *)
Theorem chunk_metadata_from_origin
        (clean : string -> string) (split_text : string -> list string)
        (fs : FileSystem) (data_dir : string) (chunks : list Document) (chunk : Document) :
  ingest_documents clean split_text fs data_dir = Ok chunks ->
  In chunk chunks ->
  exists (files : list string) (filename : string) (loaded : list Document) (doc : Document),
    listdir fs data_dir = Ok files
    /\ In filename files
    /\ load_file fs filename (path_join data_dir filename) = Some (Ok loaded)
    /\ In doc loaded
    /\ metadata chunk !! "source" = Some (PStr filename)
    /\ metadata chunk !! "type"
       = Some (PStr (fst (determine_metadata (path_join data_dir filename))))
    /\ metadata chunk !! "rank"
       = Some (PInt (snd (determine_metadata (path_join data_dir filename))))
    /\ metadata chunk !! "page" = Some (default (PStr "N/A") (metadata doc !! "page"))
    /\ (forall k : string, ~ In k stamped_keys -> metadata chunk !! k = metadata doc !! k)
    /\ In (page_content chunk) (split_text (clean_text_content clean (page_content doc))).
Proof.
  unfold ingest_documents. intros Hrun Hchunk.
  destruct (path_exists fs data_dir); simpl in Hrun.
  2: { injection Hrun as <-. destruct Hchunk. }
  destruct (listdir fs data_dir) as [files | e] eqn:Hlist; [| discriminate].
  destruct (load_all clean fs data_dir files []) as [documents | e] eqn:Hload;
    [| discriminate].
  injection Hrun as <-. unfold split_documents in Hchunk.
  apply in_flat_map in Hchunk as (d & Hd & Hchunk).
  apply in_map_iff in Hchunk as (t & <- & Ht). cbn [metadata page_content].
  destruct (load_all_origin clean fs data_dir files _ _ d Hload Hd) as [[] | Hfrom].
  destruct Hfrom as (filename & loaded & doc & Hin & Hfile & Hdoc & ->).
  exists files, filename, loaded, doc.
  destruct (update_doc_metadata clean filename
              (fst (determine_metadata (path_join data_dir filename)))
              (snd (determine_metadata (path_join data_dir filename))) doc)
    as (Hs & Ht' & Hr & Hp & Ho).
  repeat (split; [assumption || reflexivity |]).
  exact Ht.
Qed.

Lemma chunk_metadata_from_origin_witness :
  exists (files : list string) (filename : string) (loaded : list Document) (doc : Document),
    listdir fs_corpus "data" = Ok files
    /\ In filename files
    /\ load_file fs_corpus filename (path_join "data" filename) = Some (Ok loaded)
    /\ In doc loaded
    /\ metadata row_chunk !! "source" = Some (PStr filename)
    /\ metadata row_chunk !! "type"
       = Some (PStr (fst (determine_metadata (path_join "data" filename))))
    /\ metadata row_chunk !! "rank"
       = Some (PInt (snd (determine_metadata (path_join "data" filename))))
    /\ metadata row_chunk !! "page" = Some (default (PStr "N/A") (metadata doc !! "page"))
    /\ (forall k : string, ~ In k stamped_keys -> metadata row_chunk !! k = metadata doc !! k)
    /\ In (page_content row_chunk)
          (split_whole (clean_text_content clean_id (page_content doc))).
Proof.
  apply (chunk_metadata_from_origin clean_id split_whole fs_corpus "data"
           [a1c_chunk; row_chunk] row_chunk);
    [vm_compute; reflexivity | right; left; reflexivity].
Defined.

(** The corpus of three files gives two chunks, classified by file name. *)
Example ingest_corpus :
  ingest_documents clean_id split_whole fs_corpus "data" = Ok [a1c_chunk; row_chunk].
Proof. vm_compute. reflexivity. Qed.

(** ** Indexing *)

Import VectorStore StoreSpec.

Section Batching.
Context {A : Type}.

(** The slices taken at the multiples of [step] are pieces of [step]
    elements that follow each other. *)
Lemma slice_step (l : list A) (k step : nat) :
  slice l (k * step) (k * step + step) = take step (drop (k * step) l).
Proof. unfold slice. f_equal. lia. Qed.

Lemma concat_pieces (step m : nat) :
  forall l : list A,
    length l <= m * step ->
    concat (map (fun k => take step (drop (k * step) l)) (seq 0 m)) = l.
Proof.
  induction m as [| m IH]; intros l Hlen.
  - destruct l; [reflexivity | simpl in Hlen; lia].
  - cbn [seq map concat]. rewrite <- seq_shift, map_map.
    rewrite (map_ext _ (fun k => take step (drop (k * step) (drop step l)))).
    + rewrite IH; [apply take_drop |]. rewrite length_drop. lia.
    + intros k. rewrite drop_drop. reflexivity.
Qed.

Lemma range_step_pieces (l : list A) (step : nat) :
  0 < step ->
  let batches := map (fun i => slice l i (i + step)) (range_step (length l) step) in
  concat batches = l
  /\ Forall (fun b => 0 < length b <= step) batches.
Proof.
  intros Hstep. cbv zeta. unfold range_step. rewrite map_map.
  set (m := (length l + step - 1) / step).
  assert (Hm : length l <= m * step).
  { pose proof (Nat.mul_succ_div_gt (length l + step - 1) step ltac:(lia)) as H.
    fold m in H. nia. }
  assert (Hk : forall k, k < m -> k * step < length l).
  { intros k Hk.
    pose proof (Nat.Div0.mul_div_le (length l + step - 1) step) as H.
    fold m in H. nia. }
  split.
  - rewrite (map_ext _ (fun k => take step (drop (k * step) l)))
      by (intros k; apply slice_step).
    now apply concat_pieces.
  - apply List.Forall_forall. intros b Hb.
    apply in_map_iff in Hb as (k & <- & Hin). apply in_seq in Hin.
    rewrite slice_step, length_take, length_drop.
    specialize (Hk k ltac:(lia)). lia.
Qed.
End Batching.

Section IndexProofs.
Variable store : Store.

Lemma write_batch_attempt (i : nat) (b : list Document) (tr : list event) :
  exists w r, write_batch store i b tr = (r, tr ++ [w]) /\ first_attempt store tr b w r.
Proof.
  unfold write_batch, call, first_attempt.
  destruct ((i =? 0) && negb (persist_exists store tr)); eauto 6.
Qed.

(** One turn of the loop never raises and deals with its batch. *)
Lemma index_batch_done (documents : list Document) (i : nat) (tr : list event) :
  writes_raise_only_Exception store ->
  exists tr',
    index_batch store documents i tr = (Ok tt, tr')
    /\ batch_done store (slice documents i (i + BATCH_SIZE)) tr tr'.
Proof.
  intros [Hfrom Hadd]. unfold index_batch.
  set (b := slice documents i (i + BATCH_SIZE)).
  destruct (write_batch_attempt i b tr) as (w & r & Hw & Hfirst).
  unfold try_except at 1. rewrite Hw.
  destruct r as [[] | e].
  - eexists. split; [reflexivity |]. now apply batch_written.
  - assert (He : is_Exception e = true).
    { destruct Hfirst as [[_ H] | [_ H]]; symmetry in H; eauto. }
    destruct e as [msg | msg]; [| discriminate].
    unfold bind, emit, try_except, call. rewrite <- !app_assoc. simpl.
    destruct (add_documents store _ b) as [[] | e2] eqn:Hretry.
    + eexists. split; [reflexivity |].
      eapply batch_retried; eassumption.
    + assert (He2 : is_Exception e2 = true) by eauto.
      destruct e2 as [msg2 | msg2]; [| discriminate].
      rewrite <- !app_assoc. simpl.
      eexists. split; [reflexivity |].
      eapply batch_lost; eassumption.
Qed.

(** The loop reaches every index and never raises. *)
Lemma for_in_batches_done (documents : list Document) (idxs : list nat) :
  writes_raise_only_Exception store ->
  forall tr : list event,
  exists tr',
    for_in idxs (index_batch store documents) tr = (Ok tt, tr')
    /\ batches_done store
         (map (fun i => slice documents i (i + BATCH_SIZE)) idxs) tr tr'.
Proof.
  intros Hstore. induction idxs as [| i idxs IH]; intros tr.
  - exists tr. split; [reflexivity | constructor].
  - destruct (index_batch_done documents i tr Hstore) as (tr1 & Hrun & Hdone).
    destruct (IH tr1) as (tr2 & Hrest & Hrest_done).
    exists tr2. split.
    + cbn [for_in]. unfold bind. now rewrite Hrun.
    + cbn [map]. econstructor; eassumption.
Qed.
End IndexProofs.

(** C10: for a non-empty list of chunks, when the embedding service is
    obtained and writes fail with instances of [Exception] only,
    [index_documents] returns without raising; the batches it writes are
    consecutive pieces of the list, in order, each of at least 1 and at most
    32 chunks, that put together give the list back; and each batch in
    turn is written at once, or, when the first write fails, is logged,
    waited for 5 seconds and written exactly one more time, a second
    failure being logged and followed by the next batch. *)
Theorem index_documents_batches (store : Store) (documents : list Document)
        (tr : list event) :
  documents <> [] ->
  get_embeddings store tr = Ok tt ->
  writes_raise_only_Exception store ->
  exists (batches : list (list Document)) (tr' : list event),
    index_documents store documents tr = (Ok tt, tr')
    /\ concat batches = documents
    /\ Forall (fun b => 0 < length b <= 32) batches
    /\ batches_done store batches (tr ++ [GetEmbeddings]) tr'.
Proof.
  intros Hne Hemb Hstore.
  destruct (range_step_pieces documents BATCH_SIZE ltac:(unfold BATCH_SIZE; lia))
    as [Hconcat Hsizes].
  destruct (for_in_batches_done store documents
              (range_step (length documents) BATCH_SIZE) Hstore (tr ++ [GetEmbeddings]))
    as (tr' & Hrun & Hdone).
  eexists _, tr'. split; [| split; [exact Hconcat | split; [exact Hsizes | exact Hdone]]].
  unfold index_documents. destruct documents as [| d ds]; [congruence |].
  unfold bind, call. rewrite Hemb. exact Hrun.
Qed.

Lemma store_flaky_raises_only_Exception : writes_raise_only_Exception store_flaky.
Proof.
  split; intros tr b e; simpl.
  - intros [= <-]. reflexivity.
  - destruct (length tr <? 5); [discriminate | intros [= <-]; reflexivity].
Qed.

Lemma index_documents_batches_witness :
  exists (batches : list (list Document)) (tr' : list event),
    index_documents store_flaky chunks33 [] = (Ok tt, tr')
    /\ concat batches = chunks33
    /\ Forall (fun b => 0 < length b <= 32) batches
    /\ batches_done store_flaky batches ([] ++ [GetEmbeddings]) tr'.
Proof.
  apply (index_documents_batches store_flaky chunks33 []);
    [discriminate | reflexivity | exact store_flaky_raises_only_Exception].
Defined.

(** The run behind the witness: the first batch is created at the second
    attempt, the second is lost after its retry, and the loop ends. *)
Example index_flaky_run :
  index_documents store_flaky chunks33 []
  = (Ok tt,
     [GetEmbeddings;
      FromDocuments (take 32 chunks33);
      LogError "Error indexing batch 0: timed out";
      Sleep 5;
      AddDocuments (take 32 chunks33);
      AddDocuments (drop 32 chunks33);
      LogError "Error indexing batch 32: timed out";
      Sleep 5;
      AddDocuments (drop 32 chunks33);
      LogError "Failed retry for batch 32: timed out"]).
Proof. vm_compute. reflexivity. Qed.

(** With nothing to index only the warning is logged. *)
Remark index_documents_nil (store : Store) (tr : list event) :
  index_documents store [] tr = (Ok tt, tr ++ [LogWarning "No documents to index."]).
Proof. reflexivity. Qed.

(** ** The ingestion entry point *)

Import Main.

Lemma ingest_nothing (clean : string -> string) (split_text : string -> list string)
      (fs : FileSystem) (data_dir : string) :
  no_documents_found fs data_dir \/ all_failed_to_load fs data_dir ->
  ingest_documents clean split_text fs data_dir = Ok [].
Proof.
  unfold ingest_documents.
  intros [[Hmissing | (Hdir & files & Hlist & Hnone)]
         | (Hdir & files & Hlist & _ & Hfail)].
  - now rewrite Hmissing.
  - rewrite Hdir, Hlist. cbn [negb].
    rewrite load_all_nothing; [reflexivity |]. intros f Hf. left. now apply Hnone.
  - rewrite Hdir, Hlist. cbn [negb].
    rewrite load_all_nothing; [reflexivity |]. intros f Hf.
    destruct (load_file fs f (path_join data_dir f)) as [r |] eqn:Hload; [| now left].
    right. destruct (Hfail f r Hf Hload) as [msg ->]. now exists msg.
Qed.

(** C8 (as amended): [ingest_documents] returns the list of chunks, not a
    count, and [main] reports the length of that list after indexing.
    When no document is found and when documents are found but all fail to
    load, the list returned is the same empty list, nothing is indexed and
    [main] prints the same line, "No documents found or failed to load.":
    the two cases are not told apart. *)
Theorem ingest_outcomes_merged
        (clean : string -> string) (split_text : string -> list string)
        (fs : FileSystem) (store : Store) (data_dir : string) (tr : list event) :
  (no_documents_found fs data_dir \/ all_failed_to_load fs data_dir ->
   ingest_documents clean split_text fs data_dir = Ok []
   /\ main_ingest clean split_text fs store data_dir tr = (Ok NOTHING_INDEXED, tr))
  /\ (forall (docs : list Document) (tr' : list event),
         ingest_documents clean split_text fs data_dir = Ok docs ->
         docs <> [] ->
         index_documents store docs tr = (Ok tt, tr') ->
         main_ingest clean split_text fs store data_dir tr
         = (Ok ("Successfully indexed " +:+ pretty (length docs) +:+ " chunks."), tr')).
Proof.
  split.
  - intros Hcase. pose proof (ingest_nothing clean split_text fs data_dir Hcase) as Hnil.
    split; [exact Hnil |]. unfold main_ingest. now rewrite Hnil.
  - intros docs tr' Hdocs Hne Hindex. unfold main_ingest. rewrite Hdocs.
    destruct docs as [| d ds]; [congruence |].
    unfold bind. now rewrite Hindex.
Qed.

Lemma fs_empty_no_documents : no_documents_found fs_empty "data".
Proof.
  right. split; [reflexivity |]. exists []. split; [reflexivity |]. intros f [].
Qed.

Lemma fs_corrupt_all_failed : all_failed_to_load fs_corrupt "data".
Proof.
  split; [reflexivity |]. exists ["notes.pdf"]. split; [reflexivity |]. split.
  - exists "notes.pdf". split; [now left | discriminate].
  - intros f r [<- | []] Hload. vm_compute in Hload. injection Hload as <-.
    now exists "EOF marker not found".
Qed.

(** C8 as stated fails: an empty directory (no document found) and a
    directory whose only PDF cannot be read (found, all failed) give the
    caller the same empty list, and [main] ends with the same line and the
    same untouched store in both. *)
Lemma ingest_outcomes_counterexample :
  ingest_documents clean_id split_whole fs_empty "data" = Ok []
  /\ ingest_documents clean_id split_whole fs_corrupt "data" = Ok []
  /\ main_ingest clean_id split_whole fs_empty store_up "data" []
     = (Ok "No documents found or failed to load.", [])
  /\ main_ingest clean_id split_whole fs_corrupt store_up "data" []
     = (Ok "No documents found or failed to load.", [])
  /\ listdir fs_empty "data" = Ok []
  /\ load_file fs_corrupt "notes.pdf" (path_join "data" "notes.pdf")
     = Some (Raise (Exception "EOF marker not found")).
Proof. repeat split; vm_compute; reflexivity. Qed.

(** The corpus of three files is indexed in one batch and reported. *)
Example main_ingest_corpus :
  main_ingest clean_id split_whole fs_corpus store_up "data" []
  = (Ok "Successfully indexed 2 chunks.",
     [GetEmbeddings; AddDocuments [a1c_chunk; row_chunk]]).
Proof. vm_compute. reflexivity. Qed.

Lemma ingest_outcomes_merged_witness :
  ingest_documents clean_id split_whole fs_corrupt "data" = Ok []
  /\ main_ingest clean_id split_whole fs_corrupt store_up "data" []
     = (Ok NOTHING_INDEXED, []).
Proof.
  apply (proj1 (ingest_outcomes_merged clean_id split_whole fs_corrupt store_up "data" [])).
  right. exact fs_corrupt_all_failed.
Defined.

(* ===================================================================== *)
(** * Part III: further properties of the code                            *)
(* ===================================================================== *)

(** ** The pass over the cleaned text *)

Import ExtraSpec.

(** Joining what was split gives the text back. *)
Lemma join_split (sep : ascii) (s : string) : join (char sep) (split sep s) = s.
Proof.
  induction s as [| c s IH]; [reflexivity |].
  cbn [split]. destruct (Ascii.eqb_spec c sep) as [-> | Hne].
  - destruct (split sep s) as [| l ls] eqn:Hs; [now apply split_not_nil in Hs |].
    change (join (char sep) ("" :: l :: ls)) with (String sep (join (char sep) (l :: ls))).
    now rewrite IH.
  - destruct (split sep s) as [| l ls] eqn:Hs; [now apply split_not_nil in Hs |].
    destruct ls as [| l' ls]; simpl in *; now rewrite IH.
Qed.

Lemma filter_all_true {A : Type} (p : A -> bool) (l : list A) :
  Forall (fun x => p x = true) l -> List.filter p l = l.
Proof.
  induction 1 as [| x l Hx _ IH]; simpl; [reflexivity |]. now rewrite Hx, IH.
Qed.

Lemma filter_passes {A : Type} (p : A -> bool) (l : list A) :
  Forall (fun x => p x = true) (List.filter p l).
Proof.
  apply List.Forall_forall. intros x Hx. now apply List.filter_In in Hx.
Qed.

(** The lines of the output of the pass are the lines kept, or the one
    empty line when none is kept. *)
Lemma drop_short_lines_lines (cleaned : string) :
  split LF (drop_short_lines cleaned)
  = match List.filter keep_line (split LF cleaned) with
    | [] => [""]
    | kept => kept
    end.
Proof.
  unfold drop_short_lines.
  destruct (List.filter keep_line (split LF cleaned)) as [| l ls] eqn:Hk; [reflexivity |].
  apply split_join; [discriminate |].
  rewrite <- Hk. apply List.Forall_forall. intros x Hx.
  apply List.filter_In in Hx as [Hx _].
  pose proof (split_no_sep LF cleaned) as Hall.
  rewrite List.Forall_forall in Hall. now apply Hall.
Qed.

(** X1: a text in which every line passes the test of line 42 comes out of
    the pass exactly as it went in. *)
Theorem drop_short_lines_unchanged (cleaned : string) :
  Forall (fun line => keep_line line = true) (split LF cleaned) ->
  drop_short_lines cleaned = cleaned.
Proof.
  intros Hall. unfold drop_short_lines.
  rewrite filter_all_true by assumption. apply join_split.
Qed.

Lemma drop_short_lines_unchanged_witness :
  drop_short_lines ("Take with food." +:+ char LF +:+ char LF +:+ "Adults only.")
  = "Take with food." +:+ char LF +:+ char LF +:+ "Adults only.".
Proof.
  apply (drop_short_lines_unchanged
           ("Take with food." +:+ char LF +:+ char LF +:+ "Adults only.")).
  vm_compute. repeat constructor.
Defined.

(** X2: the pass is idempotent: run on its own output it changes nothing. *)
Theorem drop_short_lines_idempotent (cleaned : string) :
  drop_short_lines (drop_short_lines cleaned) = drop_short_lines cleaned.
Proof.
  unfold drop_short_lines at 1. rewrite drop_short_lines_lines.
  unfold drop_short_lines.
  destruct (List.filter keep_line (split LF cleaned)) as [| l ls] eqn:Hk; [reflexivity |].
  rewrite filter_all_true; [reflexivity |].
  rewrite <- Hk. apply filter_passes.
Qed.

(** X3: no short line survives: every line of the output either holds
    nothing but white space or has more than 3 characters once trimmed. *)
Theorem drop_short_lines_no_short_line (cleaned line : string) :
  In line (split LF (drop_short_lines cleaned)) ->
  strip line = "" \/ 3 < String.length (strip line).
Proof.
  rewrite drop_short_lines_lines. intros Hin.
  assert (Hkeep : keep_line line = true).
  { destruct (List.filter keep_line (split LF cleaned)) as [| l ls] eqn:Hk.
    - destruct Hin as [<- | []]. reflexivity.
    - rewrite <- Hk in Hin. now apply List.filter_In in Hin. }
  unfold keep_line in Hkeep. apply orb_true_iff in Hkeep as [H | H].
  - right. now apply Nat.ltb_lt.
  - left. now apply String.eqb_eq.
Qed.

Lemma drop_short_lines_no_short_line_witness :
  strip "  Adults only" = "" \/ 3 < String.length (strip "  Adults only").
Proof.
  apply (drop_short_lines_no_short_line
           ("p. 3" +:+ char LF +:+ "12" +:+ char LF +:+ "  Adults only") "  Adults only").
  vm_compute. right. left. reflexivity.
Defined.

(** ** Classification *)

(** X4: whatever the path, the classification is one of three pairs: the
    rank is 1, 2 or 3 and is fixed by the type. *)
Theorem determine_metadata_range (file_path : string) :
  determine_metadata file_path = ("guideline", 1%Z)
  \/ determine_metadata file_path = ("textbook", 2%Z)
  \/ determine_metadata file_path = ("faq", 3%Z).
Proof.
  unfold determine_metadata.
  destruct (contains _ "guideline"); [now left |].
  destruct (contains _ "textbook"); [now right; left |].
  destruct (contains _ "faq" || endswith file_path ".csv"); [now right; right | now right; left].
Qed.

Lemma startswith_slash_has_char (f : string) :
  startswith f (char SLASH) = true -> has_char SLASH f = true.
Proof.
  intros H. apply startswith_spec in H as [post ->]. reflexivity.
Qed.

(** The path built for an entry of a directory is the entry itself or ends
    with a slash followed by the entry. *)
Lemma path_join_shape (data_dir f : string) :
  has_char SLASH f = false ->
  path_join data_dir f = f \/ exists dir, path_join data_dir f = dir +:+ char SLASH +:+ f.
Proof.
  intros Hf. unfold path_join.
  destruct (startswith f (char SLASH)) eqn:Hst.
  - apply startswith_slash_has_char in Hst. congruence.
  - destruct (String.eqb_spec data_dir "") as [-> | Hne]; cbn [orb].
    + now left.
    + destruct (endswith data_dir (char SLASH)) eqn:He.
      * apply endswith_spec in He as [pre ->]. right. exists pre.
        now rewrite append_assoc.
      * right. now exists data_dir.
Qed.

(** A suffix without the separator lies within what follows the last
    separator. *)
Lemma suffix_after_sep (sep : ascii) (suf f : string) :
  has_char sep suf = false ->
  forall x pre : string,
    x +:+ suf = pre +:+ String sep f -> exists y, f = y +:+ suf.
Proof.
  intros Hsuf. induction x as [| c x IH]; intros pre H.
  - simpl in H. subst suf. rewrite has_char_append in Hsuf. simpl in Hsuf.
    rewrite Ascii.eqb_refl, orb_true_r in Hsuf. discriminate.
  - destruct pre as [| c' pre]; simpl in H; injection H as _ H.
    + now exists x.
    + now apply (IH pre).
Qed.

Lemma endswith_path_join (data_dir f suf : string) :
  has_char SLASH f = false ->
  has_char SLASH suf = false ->
  endswith (path_join data_dir f) suf = endswith f suf.
Proof.
  intros Hf Hsuf.
  destruct (path_join_shape data_dir f Hf) as [-> | [dir ->]]; [reflexivity |].
  destruct (endswith f suf) eqn:Hend.
  - apply endswith_spec in Hend as [y ->]. apply endswith_spec.
    exists (dir +:+ char SLASH +:+ y). now rewrite !append_assoc.
  - destruct (endswith (dir +:+ char SLASH +:+ f) suf) eqn:Hfull; [| reflexivity].
    apply endswith_spec in Hfull as [x Hx].
    destruct (suffix_after_sep SLASH suf f Hsuf x dir (eq_sym Hx)) as [y Hy].
    assert (endswith f suf = true) by (apply endswith_spec; now exists y).
    congruence.
Qed.

Lemma basename_path_join (data_dir f : string) :
  has_char SLASH f = false -> basename (path_join data_dir f) = f.
Proof.
  intros Hf.
  destruct (path_join_shape data_dir f Hf) as [-> | [dir ->]].
  - now apply basename_no_slash.
  - now apply basename_after_slash.
Qed.

(** X5: for an entry of a directory (a name without a slash, as
    [os.listdir] gives them) the directory plays no part: the path joined
    with any directory is classified as the bare name is, and its last
    component is the name. *)
Theorem determine_metadata_ignores_directory (data_dir filename : string) :
  has_char SLASH filename = false ->
  basename (path_join data_dir filename) = filename
  /\ determine_metadata (path_join data_dir filename) = determine_metadata filename.
Proof.
  intros Hf. split; [now apply basename_path_join |].
  unfold determine_metadata.
  rewrite basename_path_join, (basename_no_slash filename) by assumption.
  now rewrite endswith_path_join.
Qed.

Lemma determine_metadata_ignores_directory_witness :
  basename (path_join "guideline.csv/faq" "notes.pdf") = "notes.pdf"
  /\ determine_metadata (path_join "guideline.csv/faq" "notes.pdf")
     = determine_metadata "notes.pdf".
Proof.
  apply (determine_metadata_ignores_directory "guideline.csv/faq" "notes.pdf").
  reflexivity.
Defined.

(** ** Ingestion *)

Section LoadFacts.
Variable clean : string -> string.
Variable fs : FileSystem.

(** The loop only appends to what it was given. *)
Lemma load_all_acc (data_dir : string) (files : list string) :
  forall acc : list Document,
    load_all clean fs data_dir files acc
    = match load_all clean fs data_dir files [] with
      | Ok docs => Ok (acc ++ docs)
      | Raise e => Raise e
      end.
Proof.
  induction files as [| f files IH]; intros acc; cbn [load_all].
  - now rewrite app_nil_r.
  - destruct (determine_metadata (path_join data_dir f)) as [doc_type rank].
    destruct (load_file fs f (path_join data_dir f)) as [[loaded | [msg | msg]] |];
      try apply IH; try reflexivity.
    rewrite IH. rewrite (IH ([] ++ _)).
    destruct (load_all clean fs data_dir files []); [| reflexivity].
    now rewrite app_assoc.
Qed.

(** A listing in two parts is loaded part after part. *)
Lemma load_all_app (data_dir : string) (files1 files2 : list string) :
  forall acc : list Document,
    load_all clean fs data_dir (files1 ++ files2) acc
    = match load_all clean fs data_dir files1 acc with
      | Ok docs => load_all clean fs data_dir files2 docs
      | Raise e => Raise e
      end.
Proof.
  induction files1 as [| f files1 IH]; intros acc; [reflexivity |].
  cbn [app load_all].
  destruct (determine_metadata (path_join data_dir f)) as [doc_type rank].
  destruct (load_file fs f (path_join data_dir f)) as [[loaded | [msg | msg]] |];
    try apply IH; reflexivity.
Qed.

Lemma load_file_raises (f p : string) (e : exn) :
  loaders_raise_only_Exception fs ->
  load_file fs f p = Some (Raise e) -> is_Exception e = true.
Proof.
  intros [Hpdf Hcsv]. unfold load_file.
  destruct (endswith f ".pdf"); [intros [= H]; eauto |].
  destruct (endswith f ".csv"); [intros [= H]; eauto | discriminate].
Qed.

(** With loaders that raise instances of [Exception] only, the loop ends
    normally, and the files that are skipped or fail could as well be
    absent. *)
Lemma load_all_filter (data_dir : string) (files : list string) :
  loaders_raise_only_Exception fs ->
  forall acc : list Document,
    (exists docs, load_all clean fs data_dir files acc = Ok docs)
    /\ load_all clean fs data_dir files acc
       = load_all clean fs data_dir (List.filter (contributes fs data_dir) files) acc.
Proof.
  intros Hfs. induction files as [| f files IH]; intros acc.
  - split; [now exists acc | reflexivity].
  - cbn [load_all List.filter]. unfold contributes at 1.
    destruct (determine_metadata (path_join data_dir f)) as [doc_type rank] eqn:Hdm.
    destruct (load_file fs f (path_join data_dir f)) as [[loaded | e] |] eqn:Hload.
    + cbn [load_all]. rewrite Hdm, Hload. apply IH.
    + pose proof (load_file_raises _ _ _ Hfs Hload) as He.
      destruct e as [msg | msg]; [apply IH | discriminate].
    + apply IH.
Qed.

(** Where a document of the result comes from, with its metadata. *)
Lemma load_all_sources (data_dir : string) (files : list string)
      (documents : list Document) (d : Document) :
  load_all clean fs data_dir files [] = Ok documents ->
  In d documents ->
  exists filename loaded doc,
    In filename files
    /\ load_file fs filename (path_join data_dir filename) = Some (Ok loaded)
    /\ In doc loaded
    /\ d = update_doc clean filename
             (fst (determine_metadata (path_join data_dir filename)))
             (snd (determine_metadata (path_join data_dir filename))) doc.
Proof.
  intros Hload Hd.
  destruct (load_all_origin clean fs data_dir files _ _ d Hload Hd) as [[] | H].
  exact H.
Qed.
End LoadFacts.

Lemma load_all_with_listing (clean : string -> string) (fs : FileSystem)
      (listing : list string) (data_dir : string) (files : list string) :
  forall acc : list Document,
    load_all clean (with_listing fs listing) data_dir files acc
    = load_all clean fs data_dir files acc.
Proof.
  induction files as [| f files IH]; intros acc; [reflexivity |].
  cbn [load_all].
  destruct (determine_metadata (path_join data_dir f)) as [doc_type rank].
  change (load_file (with_listing fs listing) f (path_join data_dir f))
    with (load_file fs f (path_join data_dir f)).
  destruct (load_file fs f (path_join data_dir f)) as [[loaded | [msg | msg]] |];
    try apply IH; reflexivity.
Qed.

(** [ingest_documents] on an existing directory, by its listing. *)
Lemma ingest_documents_listing (clean : string -> string) (split_text : string -> list string)
      (fs : FileSystem) (data_dir : string) (files : list string) :
  path_exists fs data_dir = true ->
  listdir fs data_dir = Ok files ->
  ingest_documents clean split_text fs data_dir
  = match load_all clean fs data_dir files [] with
    | Ok documents => Ok (split_documents split_text documents)
    | Raise e => Raise e
    end.
Proof. intros Hdir Hlist. unfold ingest_documents. now rewrite Hdir, Hlist. Qed.

(** X6: on an existing directory that can be listed, with loaders that
    fail with instances of [Exception] only, [ingest_documents] returns
    chunks whatever fails, and they are the chunks it returns when the
    listing holds only the files that have a supported extension and load:
    a file skipped or failed leaves nothing behind. *)
Theorem ingest_survives_failures
        (clean : string -> string) (split_text : string -> list string)
        (fs : FileSystem) (data_dir : string) (files : list string) :
  path_exists fs data_dir = true ->
  listdir fs data_dir = Ok files ->
  loaders_raise_only_Exception fs ->
  exists chunks : list Document,
    ingest_documents clean split_text fs data_dir = Ok chunks
    /\ ingest_documents clean split_text
         (with_listing fs (List.filter (contributes fs data_dir) files)) data_dir
       = Ok chunks.
Proof.
  intros Hdir Hlist Hfs.
  rewrite (ingest_documents_listing clean split_text fs data_dir files Hdir Hlist).
  rewrite (ingest_documents_listing clean split_text (with_listing fs _) data_dir
             (List.filter (contributes fs data_dir) files) Hdir eq_refl).
  rewrite load_all_with_listing.
  destruct (load_all_filter clean fs data_dir files Hfs []) as [[docs Hdocs] Heq].
  rewrite <- Heq, Hdocs. now exists (split_documents split_text docs).
Qed.

Lemma fs_mixed_raises_only_Exception : loaders_raise_only_Exception fs_mixed.
Proof.
  split; intros p e; simpl; [| discriminate].
  destruct (contains p "broken"); [intros [= <-]; reflexivity | discriminate].
Qed.

Lemma ingest_survives_failures_witness :
  exists chunks : list Document,
    ingest_documents IngestSpec.clean_id IngestSpec.split_whole fs_mixed "data" = Ok chunks
    /\ ingest_documents IngestSpec.clean_id IngestSpec.split_whole
         (with_listing fs_mixed
            (List.filter (contributes fs_mixed "data")
               ["broken.pdf"; "guideline_diabetes.pdf"; "README.md"])) "data"
       = Ok chunks.
Proof.
  apply (ingest_survives_failures IngestSpec.clean_id IngestSpec.split_whole fs_mixed "data"
           ["broken.pdf"; "guideline_diabetes.pdf"; "README.md"]);
    [reflexivity | reflexivity | exact fs_mixed_raises_only_Exception].
Defined.

(** The directory with the broken file gives the chunk of the guideline. *)
Example ingest_mixed :
  ingest_documents IngestSpec.clean_id IngestSpec.split_whole fs_mixed "data"
  = Ok [IngestSpec.a1c_chunk]
  /\ List.filter (contributes fs_mixed "data")
       ["broken.pdf"; "guideline_diabetes.pdf"; "README.md"]
     = ["guideline_diabetes.pdf"].
Proof. split; vm_compute; reflexivity. Qed.

(** Where a chunk of the result comes from. *)
Lemma ingest_chunk_origin
      (clean : string -> string) (split_text : string -> list string)
      (fs : FileSystem) (data_dir : string) (chunks : list Document) (chunk : Document) :
  ingest_documents clean split_text fs data_dir = Ok chunks ->
  In chunk chunks ->
  exists files filename loaded doc,
    listdir fs data_dir = Ok files
    /\ In filename files
    /\ load_file fs filename (path_join data_dir filename) = Some (Ok loaded)
    /\ In doc loaded
    /\ metadata chunk
       = metadata (update_doc clean filename
                     (fst (determine_metadata (path_join data_dir filename)))
                     (snd (determine_metadata (path_join data_dir filename))) doc).
Proof.
  unfold ingest_documents. intros Hrun Hchunk.
  destruct (path_exists fs data_dir); simpl in Hrun.
  2: { injection Hrun as <-. destruct Hchunk. }
  destruct (listdir fs data_dir) as [files | e] eqn:Hlist; [| discriminate].
  destruct (load_all clean fs data_dir files []) as [documents | e] eqn:Hload;
    [| discriminate].
  injection Hrun as <-. unfold split_documents in Hchunk.
  apply in_flat_map in Hchunk as (d & Hd & Hchunk).
  apply in_map_iff in Hchunk as (t & <- & Ht). cbn [metadata].
  destruct (load_all_sources clean fs data_dir files _ d Hload Hd)
    as (filename & loaded & doc & Hin & Hfile & Hdoc & ->).
  now exists files, filename, loaded, doc.
Qed.

(** X7: only files whose name ends with ".pdf" or ".csv", in lower case,
    leave chunks: the source of every chunk is such a name of the
    listing. *)
Theorem chunk_source_is_supported_file
        (clean : string -> string) (split_text : string -> list string)
        (fs : FileSystem) (data_dir : string) (chunks : list Document) (chunk : Document) :
  ingest_documents clean split_text fs data_dir = Ok chunks ->
  In chunk chunks ->
  exists (files : list string) (filename : string),
    listdir fs data_dir = Ok files
    /\ In filename files
    /\ metadata chunk !! "source" = Some (PStr filename)
    /\ (IngestSpec.has_suffix filename ".pdf" \/ IngestSpec.has_suffix filename ".csv").
Proof.
  intros Hrun Hchunk.
  destruct (ingest_chunk_origin clean split_text fs data_dir chunks chunk Hrun Hchunk)
    as (files & filename & loaded & doc & Hlist & Hin & Hfile & _ & Hmeta).
  exists files, filename. repeat split; try assumption.
  - rewrite Hmeta. apply update_doc_metadata.
  - unfold load_file in Hfile.
    destruct (endswith filename ".pdf") eqn:Hpdf;
      [left; now apply endswith_spec in Hpdf |].
    destruct (endswith filename ".csv") eqn:Hcsv;
      [right; now apply endswith_spec in Hcsv | discriminate].
Qed.

Lemma chunk_source_is_supported_file_witness :
  exists (files : list string) (filename : string),
    listdir IngestSpec.fs_corpus "data" = Ok files
    /\ In filename files
    /\ metadata IngestSpec.a1c_chunk !! "source" = Some (PStr filename)
    /\ (IngestSpec.has_suffix filename ".pdf" \/ IngestSpec.has_suffix filename ".csv").
Proof.
  apply (chunk_source_is_supported_file IngestSpec.clean_id IngestSpec.split_whole
           IngestSpec.fs_corpus "data" [IngestSpec.a1c_chunk; IngestSpec.row_chunk]
           IngestSpec.a1c_chunk);
    [vm_compute; reflexivity | left; reflexivity].
Defined.

(** X8: chunks come out in the order of the listing, file by file: the
    chunks of a listing in two parts are the chunks of the first part
    followed by the chunks of the second. *)
Theorem ingest_listing_app
        (clean : string -> string) (split_text : string -> list string)
        (fs : FileSystem) (data_dir : string) (files1 files2 : list string)
        (chunks1 chunks2 : list Document) :
  ingest_documents clean split_text (with_listing fs files1) data_dir = Ok chunks1 ->
  ingest_documents clean split_text (with_listing fs files2) data_dir = Ok chunks2 ->
  ingest_documents clean split_text (with_listing fs (files1 ++ files2)) data_dir
  = Ok (chunks1 ++ chunks2).
Proof.
  unfold ingest_documents. cbn [path_exists listdir with_listing].
  destruct (path_exists fs data_dir); cbn [negb].
  2: { intros [= <-] [= <-]. reflexivity. }
  rewrite !load_all_with_listing, load_all_app.
  destruct (load_all clean fs data_dir files1 []) as [docs1 | e]; [| discriminate].
  intros [= <-]. rewrite (load_all_acc clean fs data_dir files2 docs1).
  destruct (load_all clean fs data_dir files2 []) as [docs2 | e]; [| discriminate].
  intros [= <-]. unfold split_documents. now rewrite flat_map_app.
Qed.

Lemma ingest_listing_app_witness :
  ingest_documents IngestSpec.clean_id IngestSpec.split_whole
    (with_listing IngestSpec.fs_corpus (["questions.csv"] ++ ["guideline_diabetes.pdf"]))
    "data"
  = Ok ([IngestSpec.row_chunk] ++ [IngestSpec.a1c_chunk]).
Proof.
  apply (ingest_listing_app IngestSpec.clean_id IngestSpec.split_whole
           IngestSpec.fs_corpus "data" ["questions.csv"] ["guideline_diabetes.pdf"]);
    vm_compute; reflexivity.
Defined.

(** ** The context block *)

Import RagEngine.

(** X9: a chunk that comes out of ingestion is never rendered with the
    stand-ins of [format_docs] ("Unknown", "General", rank 2 by default):
    its block names the file it comes from, the page the loader gave or
    "N/A", and the type and rank that [determine_metadata] gives for that
    file. *)
Theorem ingested_chunk_citation
        (clean : string -> string) (split_text : string -> list string)
        (fs : FileSystem) (data_dir : string) (chunks : list Document) (chunk : Document) :
  ingest_documents clean split_text fs data_dir = Ok chunks ->
  In chunk chunks ->
  exists (files : list string) (filename : string) (page : pyval),
    listdir fs data_dir = Ok files
    /\ In filename files
    /\ metadata chunk !! "page" = Some page
    /\ format_doc chunk
       = "Source: " +:+ filename +:+ " (Page " +:+ str_val page
         +:+ ") [Type: " +:+ fst (determine_metadata (path_join data_dir filename))
         +:+ ", Rank: " +:+ pretty (snd (determine_metadata (path_join data_dir filename)))
         +:+ "]" +:+ char LF
         +:+ "Content: " +:+ replace LF " " (page_content chunk) +:+ char LF.
Proof.
  intros Hrun Hchunk.
  destruct (ingest_chunk_origin clean split_text fs data_dir chunks chunk Hrun Hchunk)
    as (files & filename & loaded & doc & Hlist & Hin & _ & _ & Hmeta).
  destruct (update_doc_metadata clean filename
              (fst (determine_metadata (path_join data_dir filename)))
              (snd (determine_metadata (path_join data_dir filename))) doc)
    as (Hs & Ht & Hr & Hp & _).
  rewrite <- Hmeta in Hs, Ht, Hr, Hp.
  exists files, filename, (default (PStr "N/A") (metadata doc !! "page")).
  repeat split; try assumption.
  unfold format_doc. now rewrite Hs, Ht, Hr, Hp.
Qed.

Lemma ingested_chunk_citation_witness :
  exists (files : list string) (filename : string) (page : pyval),
    listdir IngestSpec.fs_corpus "data" = Ok files
    /\ In filename files
    /\ metadata IngestSpec.row_chunk !! "page" = Some page
    /\ format_doc IngestSpec.row_chunk
       = "Source: " +:+ filename +:+ " (Page " +:+ str_val page
         +:+ ") [Type: " +:+ fst (determine_metadata (path_join "data" filename))
         +:+ ", Rank: " +:+ pretty (snd (determine_metadata (path_join "data" filename)))
         +:+ "]" +:+ char LF
         +:+ "Content: " +:+ replace LF " " (page_content IngestSpec.row_chunk) +:+ char LF.
Proof.
  apply (ingested_chunk_citation IngestSpec.clean_id IngestSpec.split_whole
           IngestSpec.fs_corpus "data" [IngestSpec.a1c_chunk; IngestSpec.row_chunk]
           IngestSpec.row_chunk);
    [vm_compute; reflexivity | right; left; reflexivity].
Defined.

(** The block of the row of the table, as the model reads it. *)
Example row_chunk_block :
  format_doc IngestSpec.row_chunk
  = "Source: questions.csv (Page N/A) [Type: faq, Rank: 3]" +:+ char LF
    +:+ "Content: question: What is A1C?" +:+ char LF.
Proof. vm_compute. reflexivity. Qed.

Lemma count_char_append (c : ascii) (a b : string) :
  count_char c (a +:+ b) = count_char c a + count_char c b.
Proof.
  induction a as [| x a IH]; simpl; [reflexivity |]. rewrite IH. lia.
Qed.

Lemma count_char_replace (a b : ascii) (s : string) :
  a <> b -> count_char a (replace a b s) = 0.
Proof.
  intros Hab. induction s as [| c s IH]; simpl; [reflexivity |].
  rewrite IH. destruct (Ascii.eqb_spec c a) as [-> | Hc].
  - apply not_eq_sym, Ascii.eqb_neq in Hab. now rewrite Hab.
  - apply Ascii.eqb_neq in Hc. now rewrite Hc.
Qed.

Lemma length_replace (a b : ascii) (s : string) :
  String.length (replace a b s) = String.length s.
Proof. induction s as [| c s IH]; simpl; [reflexivity | now rewrite IH]. Qed.

(** X10: when no metadata value holds a line break, the block of a document
    is exactly two lines, whatever its content: the line breaks of the
    content are replaced one for one by spaces (the length is kept), and
    the only line breaks of the block are the one after the header and the
    one at the end. *)
Theorem format_doc_two_lines (doc : Document) :
  (forall (k : string) (v : pyval),
      metadata doc !! k = Some v -> count_char LF (str_val v) = 0) ->
  count_char LF (format_doc doc) = 2
  /\ count_char LF (replace LF " " (page_content doc)) = 0
  /\ String.length (replace LF " " (page_content doc)) = String.length (page_content doc).
Proof.
  intros Hmeta.
  assert (Hval : forall (k : string) (d : pyval),
             count_char LF (str_val d) = 0 ->
             count_char LF (str_val (default d (metadata doc !! k))) = 0).
  { intros k d Hd. destruct (metadata doc !! k) as [v |] eqn:Hk; simpl; eauto. }
  assert (Hrep : count_char LF (replace LF " " (page_content doc)) = 0)
    by (apply count_char_replace; discriminate).
  split; [| split; [exact Hrep | apply length_replace]].
  unfold format_doc. rewrite !count_char_append, Hrep.
  rewrite !Hval by reflexivity. reflexivity.
Qed.

Lemma format_doc_two_lines_witness :
  count_char LF
    (format_doc (mkDocument ("Dose:" +:+ char LF +:+ "5 mg")
                   (<["source" := PStr "dosage.pdf"]> (<["page" := PInt 4]> ∅)))) = 2
  /\ count_char LF (replace LF " " ("Dose:" +:+ char LF +:+ "5 mg")) = 0
  /\ String.length (replace LF " " ("Dose:" +:+ char LF +:+ "5 mg"))
     = String.length ("Dose:" +:+ char LF +:+ "5 mg").
Proof.
  apply (format_doc_two_lines
           (mkDocument ("Dose:" +:+ char LF +:+ "5 mg")
              (<["source" := PStr "dosage.pdf"]> (<["page" := PInt 4]> ∅)))).
  intros k v. cbn [metadata].
  rewrite lookup_insert. case_decide; [intros [= <-]; reflexivity |].
  rewrite lookup_insert. case_decide; [intros [= <-]; reflexivity |].
  rewrite lookup_empty. discriminate.
Defined.

(** ** Indexing, whatever the store does *)

Import VectorStore StoreSpec.

Lemma count_writes_app (a b : list VectorStore.event) :
  count_writes (a ++ b) = count_writes a + count_writes b.
Proof. unfold count_writes. now rewrite List.filter_app, length_app. Qed.

Lemma total_sleep_app (a b : list VectorStore.event) :
  total_sleep (a ++ b) = total_sleep a + total_sleep b.
Proof. unfold total_sleep. now rewrite map_app, list_sum_app. Qed.

Lemma count_if_app {A : Type} (p : A -> bool) (a b : list A) :
  count_if p (a ++ b) = count_if p a + count_if p b.
Proof. unfold count_if. now rewrite List.filter_app, length_app. Qed.

Section IndexFacts.
Variable store : Store.

(** What one turn of the loop adds to the trace, whatever comes back from
    the store: the first write, and after a failure that is caught the log
    line, the wait and the one retry, with a last log line when the retry
    fails with an [Exception] too. *)
Lemma index_batch_segment (documents : list Document) (i : nat) (tr : list VectorStore.event) :
  let b := slice documents i (i + BATCH_SIZE) in
  exists (r : result unit) (w : VectorStore.event) (rest : list VectorStore.event),
    index_batch store documents i tr = (r, tr ++ w :: rest)
    /\ (w = AddDocuments b \/ (w = FromDocuments b /\ i = 0))
    /\ (rest = []
        \/ (exists line, rest = [LogError line; Sleep 5; AddDocuments b])
        \/ (exists line line2,
               rest = [LogError line; Sleep 5; AddDocuments b; LogError line2])).
Proof.
  cbv zeta. unfold index_batch. set (b := slice documents i (i + BATCH_SIZE)).
  assert (Hw : exists w r, write_batch store i b tr = (r, tr ++ [w])
                           /\ (w = AddDocuments b \/ (w = FromDocuments b /\ i = 0))).
  { unfold write_batch, call.
    destruct (Nat.eqb_spec i 0) as [-> | Hi]; cbn [andb];
      [destruct (negb (persist_exists store tr)) |]; eauto 7. }
  destruct Hw as (w & r & Hrun & Hw).
  unfold try_except at 1. rewrite Hrun.
  destruct r as [[] | [msg | msg]].
  - exists (Ok tt), w, []. auto.
  - unfold bind, emit, try_except, call. rewrite <- !app_assoc. cbn [app].
    destruct (add_documents store _ b) as [[] | [msg2 | msg2]];
      rewrite <- ?app_assoc; cbn [app];
      eexists _, w, _; (split; [reflexivity |]); (split; [exact Hw |]); eauto 6.
  - exists (Raise (BaseException msg)), w, []. auto.
Qed.

(** The same, counted. *)
Lemma index_batch_counts (documents : list Document) (i : nat) (tr : list VectorStore.event) :
  exists (r : result unit) (seg : list VectorStore.event),
    index_batch store documents i tr = (r, tr ++ seg)
    /\ count_writes seg <= 2
    /\ total_sleep seg <= 5
    /\ count_if is_from_documents seg <= (if i =? 0 then 1 else 0)
    /\ (forall b, In (FromDocuments b) seg -> b = take BATCH_SIZE documents).
Proof.
  destruct (index_batch_segment documents i tr) as (r & w & rest & Hrun & Hw & Hrest).
  exists r, (w :: rest). split; [exact Hrun |].
  assert (Hslice0 : slice documents 0 (0 + BATCH_SIZE) = take BATCH_SIZE documents)
    by reflexivity.
  destruct Hw as [-> | [-> ->]];
    destruct Hrest as [-> | [[line ->] | (line & line2 & ->)]];
    cbn; repeat split; try lia;
    try (destruct (i =? 0); lia);
    intros b' Hin; cbn in Hin;
    repeat (destruct Hin as [Hin | Hin]; try discriminate);
    try contradiction; try (injection Hin as <-; exact Hslice0).
Qed.

(** The loop, counted: nothing more than two writes and one wait of 5
    seconds a turn, and [from_documents] at index 0 only. *)
Lemma for_in_counts (documents : list Document) (idxs : list nat) :
  forall tr : list VectorStore.event,
  exists (r : result unit) (new : list VectorStore.event),
    for_in idxs (index_batch store documents) tr = (r, tr ++ new)
    /\ count_writes new <= 2 * length idxs
    /\ total_sleep new <= 5 * length idxs
    /\ count_if is_from_documents new <= count_if (Nat.eqb 0) idxs
    /\ (forall b, In (FromDocuments b) new -> b = take BATCH_SIZE documents).
Proof.
  induction idxs as [| i idxs IH]; intros tr.
  - exists (Ok tt), []. cbn. rewrite app_nil_r. repeat split; try lia; try (intros ? []).
  - destruct (index_batch_counts documents i tr) as (r1 & seg & Hrun & Hw & Hs & Hf & Hb).
    cbn [for_in]. unfold bind. rewrite Hrun.
    assert (Hhead : count_if (Nat.eqb 0) (i :: idxs)
                    = (if i =? 0 then 1 else 0) + count_if (Nat.eqb 0) idxs).
    { unfold count_if. cbn [List.filter]. rewrite (Nat.eqb_sym 0 i).
      destruct (i =? 0); reflexivity. }
    destruct r1 as [[] | e].
    + destruct (IH (tr ++ seg)) as (r & new & Hrest & Hw' & Hs' & Hf' & Hb').
      exists r, (seg ++ new). rewrite Hrest, <- app_assoc.
      rewrite count_writes_app, total_sleep_app, count_if_app, Hhead. cbn [length].
      repeat split; try lia.
      intros b Hin. apply in_app_iff in Hin as [Hin | Hin]; auto.
    + exists (Raise e), seg. rewrite Hhead. cbn [length].
      repeat split; try lia. exact Hb.
Qed.
End IndexFacts.

Lemma range_step_length (stop step : nat) :
  length (range_step stop step) = (stop + step - 1) / step.
Proof. unfold range_step. now rewrite length_map, length_seq. Qed.

(** Index 0 occurs at most once among the indices of the loop. *)
Lemma range_step_zero_once (stop step : nat) :
  0 < step -> count_if (Nat.eqb 0) (range_step stop step) <= 1.
Proof.
  intros Hstep. unfold range_step.
  destruct ((stop + step - 1) / step) as [| m]; [cbn; lia |].
  cbn [seq map]. unfold count_if. cbn [List.filter].
  change (0 =? 0 * step) with true. cbn [length].
  rewrite <- seq_shift, map_map.
  assert (Hnone : List.filter (Nat.eqb 0) (map (fun k => S k * step) (seq 0 m)) = []).
  { induction (seq 0 m) as [| k l IH]; [reflexivity |].
    cbn [map List.filter]. destruct (Nat.eqb_spec 0 (S k * step)); [nia | exact IH]. }
  rewrite Hnone. cbn. lia.
Qed.

(** What [index_documents] adds to the trace, counted. *)
Lemma index_documents_counts (store : Store) (documents : list Document)
      (tr : list VectorStore.event) :
  exists new : list VectorStore.event,
    snd (index_documents store documents tr) = tr ++ new
    /\ count_writes new <= 2 * ((length documents + 31) / 32)
    /\ total_sleep new <= 5 * ((length documents + 31) / 32)
    /\ count_if is_from_documents new <= 1
    /\ (forall b, In (FromDocuments b) new -> b = take 32 documents).
Proof.
  destruct documents as [| d ds].
  - exists [LogWarning "No documents to index."]. cbn. repeat split; try lia.
    intros b [H | []]. discriminate.
  - assert (Hunfold :
              index_documents store (d :: ds) tr
              = match get_embeddings store tr with
                | Ok _ => for_in (range_step (length (d :: ds)) BATCH_SIZE)
                                 (index_batch store (d :: ds)) (tr ++ [GetEmbeddings])
                | Raise e => (Raise e, tr ++ [GetEmbeddings])
                end).
    { unfold index_documents, bind, call.
      destruct (get_embeddings store tr) as [[] | e]; reflexivity. }
    rewrite Hunfold. clear Hunfold.
    generalize (d :: ds) as documents. intros documents.
    destruct (get_embeddings store tr) as [[] | e].
    + destruct (for_in_counts store documents (range_step (length documents) BATCH_SIZE)
                  (tr ++ [GetEmbeddings])) as (r & new & Hrun & Hw & Hs & Hf & Hb).
      rewrite Hrun. exists (GetEmbeddings :: new). cbn [snd].
      rewrite <- app_assoc. split; [reflexivity |].
      rewrite range_step_length in Hw, Hs.
      pose proof (range_step_zero_once (length documents) BATCH_SIZE
                    ltac:(unfold BATCH_SIZE; lia)) as Hz.
      unfold BATCH_SIZE in *.
      replace (length documents + 32 - 1) with (length documents + 31) in Hw, Hs by lia.
      change (count_writes (GetEmbeddings :: new)) with (count_writes new).
      change (total_sleep (GetEmbeddings :: new)) with (total_sleep new).
      change (count_if is_from_documents (GetEmbeddings :: new))
        with (count_if is_from_documents new).
      repeat split; try lia.
      intros b [H | H]; [discriminate | now apply Hb].
    + exists [GetEmbeddings]. cbn. repeat split; try lia.
      intros b [H | []]. discriminate.
Qed.

(** X11: [Chroma.from_documents] is attempted at most once in a run of
    [index_documents], and only on the first batch (the first 32 chunks at
    most); every other write, every retry included, goes through
    [add_documents].  This holds whatever the store answers. *)
Theorem from_documents_first_batch_only (store : Store) (documents : list Document)
        (tr : list VectorStore.event) :
  exists new : list VectorStore.event,
    snd (index_documents store documents tr) = tr ++ new
    /\ count_if is_from_documents new <= 1
    /\ (forall b, In (FromDocuments b) new -> b = take 32 documents).
Proof.
  destruct (index_documents_counts store documents tr) as (new & Hrun & _ & _ & Hf & Hb).
  now exists new.
Qed.

(** X12: a run of [index_documents] over N chunks is bounded whatever the
    store answers: at most two writes for each of the ceil(N/32) batches,
    and at most 5 seconds of waiting for each. *)
Theorem index_documents_bounded (store : Store) (documents : list Document)
        (tr : list VectorStore.event) :
  exists new : list VectorStore.event,
    snd (index_documents store documents tr) = tr ++ new
    /\ count_writes new <= 2 * ((length documents + 31) / 32)
    /\ total_sleep new <= 5 * ((length documents + 31) / 32).
Proof.
  destruct (index_documents_counts store documents tr) as (new & Hrun & Hw & Hs & _).
  now exists new.
Qed.

Section IndexSuccess.
Variable store : Store.
Hypothesis from_ok : forall tr b, from_documents store tr b = Ok tt.
Hypothesis add_ok : forall tr b, add_documents store tr b = Ok tt.


End IndexSuccess.



(** With writes that fail with instances of [Exception] only, and the
    embeddings obtained, indexing returns. *)
Lemma index_documents_returns (store : Store) (documents : list Document)
      (tr : list VectorStore.event) :
  documents <> [] ->
  get_embeddings store tr = Ok tt ->
  writes_raise_only_Exception store ->
  exists tr', index_documents store documents tr = (Ok tt, tr').
Proof.
  intros Hne Hemb Hstore.
  destruct (for_in_batches_done store documents
              (range_step (length documents) BATCH_SIZE) Hstore (tr ++ [GetEmbeddings]))
    as (tr' & Hrun & _).
  exists tr'. destruct documents as [| d ds]; [congruence |].
  unfold index_documents, bind, call. now rewrite Hemb.
Qed.

(** X14: the line that [main] prints after indexing counts the chunks that
    ingestion returned, not the chunks that reached the store: when the
    embeddings are obtained and writes fail with instances of [Exception]
    only, [main] ends with "Successfully indexed N chunks." for the N > 0
    chunks ingested, however many batches were lost. *)
Theorem main_reports_chunks_ingested
        (clean : string -> string) (split_text : string -> list string)
        (fs : FileSystem) (store : Store) (data_dir : string)
        (docs : list Document) (tr : list VectorStore.event) :
  ingest_documents clean split_text fs data_dir = Ok docs ->
  docs <> [] ->
  get_embeddings store tr = Ok tt ->
  writes_raise_only_Exception store ->
  fst (Main.main_ingest clean split_text fs store data_dir tr)
  = Ok ("Successfully indexed " +:+ pretty (length docs) +:+ " chunks.").
Proof.
  intros Hdocs Hne Hemb Hstore.
  destruct (index_documents_returns store docs tr Hne Hemb Hstore) as [tr' Hrun].
  unfold Main.main_ingest. rewrite Hdocs.
  destruct docs as [| d ds]; [congruence |].
  unfold bind. now rewrite Hrun.
Qed.

Lemma store_down_raises_only_Exception : writes_raise_only_Exception store_down.
Proof. split; intros tr b e [= <-]; reflexivity. Qed.

Lemma main_reports_chunks_ingested_witness :
  fst (Main.main_ingest IngestSpec.clean_id IngestSpec.split_whole IngestSpec.fs_corpus
         store_down "data" [])
  = Ok ("Successfully indexed "
        +:+ pretty (length [IngestSpec.a1c_chunk; IngestSpec.row_chunk]) +:+ " chunks.").
Proof.
  apply (main_reports_chunks_ingested IngestSpec.clean_id IngestSpec.split_whole
           IngestSpec.fs_corpus store_down "data"
           [IngestSpec.a1c_chunk; IngestSpec.row_chunk] []);
    [vm_compute; reflexivity | discriminate | reflexivity
    | exact store_down_raises_only_Exception].
Defined.

(** The run behind the witness: both writes of the one batch fail, and the
    line printed says 2 chunks were indexed. *)
Example main_ingest_store_down :
  Main.main_ingest IngestSpec.clean_id IngestSpec.split_whole IngestSpec.fs_corpus
    store_down "data" []
  = (Ok "Successfully indexed 2 chunks.",
     [GetEmbeddings;
      AddDocuments [IngestSpec.a1c_chunk; IngestSpec.row_chunk];
      LogError "Error indexing batch 0: disk full";
      Sleep 5;
      AddDocuments [IngestSpec.a1c_chunk; IngestSpec.row_chunk];
      LogError "Failed retry for batch 0: disk full"]).
Proof. vm_compute. reflexivity. Qed.

(** ** The session *)

Import Chatbot ChatSpec.

(** X15: the history handed to the chain replays the turns in full and in
    order, two messages a turn (the question, then the answer): it has
    twice as many messages as there are turns, the history of turns put
    end to end is the histories put end to end, and two sessions with the
    same messages have the same turns. *)
Theorem lc_history_of_faithful (h1 h2 : list (string * string)) :
  length (lc_history_of h1) = 2 * length h1
  /\ lc_history_of (h1 ++ h2) = lc_history_of h1 ++ lc_history_of h2
  /\ (lc_history_of h1 = lc_history_of h2 -> h1 = h2).
Proof.
  split; [| split].
  - induction h1 as [| [q a] h IH]; [reflexivity |].
    cbn [lc_history_of flat_map app length] in *.
    unfold lc_history_of in IH. rewrite IH. lia.
  - unfold lc_history_of. apply flat_map_app.
  - revert h2. induction h1 as [| [q a] h IH]; intros [| [q' a'] h'] H;
      try reflexivity; try discriminate.
    cbn [lc_history_of flat_map app] in H. injection H as -> -> H.
    f_equal. now apply IH.
Qed.

Section TurnFacts.
Variable svc : Services.

(** Everything a turn can add to the world, case by case. *)
Lemma get_answer_effects (query : string) (w : World) :
  exists new : list RagEngine.event,
    trace (snd (get_answer svc query w)) = trace w ++ new
    /\ count_if is_rephrase new <= 1
    /\ count_if is_retrieve new <= 1
    /\ count_if is_answer new <= 1
    /\ length new <= 4
    /\ (chat_history (snd (get_answer svc query w)) = chat_history w
        \/ exists answer,
             fst (get_answer svc query w) = Ok answer
             /\ chat_history (snd (get_answer svc query w))
                = chat_history w ++ [(query, answer)]).
Proof.
  destruct (String.eqb_spec query "") as [-> | Hq].
  - exists []. cbn. rewrite app_nil_r. repeat split; auto.
  - rewrite get_answer_unfold by assumption. rewrite full_chain_unfold.
    destruct (lc_history_of (chat_history w)) as [| m h].
    + rewrite retrieve_empty_history.
      destruct (retriever svc (trace w) query) as [docs | [msg | msg]]; cbv zeta.
      * destruct (answer_chain svc _ _ _ _) as [answer | [msg | msg]];
          cbn [fst snd trace chat_history]; rewrite <- ?app_assoc;
          eexists; (split; [reflexivity |]); cbn; repeat split; eauto.
      * cbn [fst snd trace chat_history]; rewrite <- ?app_assoc;
          eexists; (split; [reflexivity |]); cbn; repeat split; eauto.
      * cbn [fst snd trace chat_history]; rewrite <- ?app_assoc;
          eexists; (split; [reflexivity |]); cbn; repeat split; eauto.
    + rewrite retrieve_with_history. cbv zeta.
      destruct (rephrase_chain svc (trace w) query (m :: h)) as [q' | [msg | msg]].
      * destruct (retriever svc _ q') as [docs | [msg | msg]].
        -- destruct (answer_chain svc _ _ _ _) as [answer | [msg | msg]];
             cbn [fst snd trace chat_history]; rewrite <- ?app_assoc;
             eexists; (split; [reflexivity |]); cbn; repeat split; eauto.
        -- cbn [fst snd trace chat_history]; rewrite <- ?app_assoc;
             eexists; (split; [reflexivity |]); cbn; repeat split; eauto.
        -- cbn [fst snd trace chat_history]; rewrite <- ?app_assoc;
             eexists; (split; [reflexivity |]); cbn; repeat split; eauto.
      * cbn [fst snd trace chat_history]; rewrite <- ?app_assoc;
          eexists; (split; [reflexivity |]); cbn; repeat split; eauto.
      * cbn [fst snd trace chat_history]; rewrite <- ?app_assoc;
          eexists; (split; [reflexivity |]); cbn; repeat split; eauto.
Qed.
End TurnFacts.

(** X16: a turn never removes or rewrites an earlier turn, whatever the
    services do (an exception that is not caught included): the history
    after [get_answer] starts with the history before and is at most one
    turn longer, and the trace of calls only grows. *)
Theorem get_answer_history_only_grows (svc : Services) (query : string) (w : World) :
  chat_history w `prefix_of` chat_history (snd (get_answer svc query w))
  /\ length (chat_history (snd (get_answer svc query w))) <= S (length (chat_history w))
  /\ trace w `prefix_of` trace (snd (get_answer svc query w)).
Proof.
  destruct (get_answer_effects svc query w) as (new & Htr & _ & _ & _ & _ & Hh).
  split; [| split].
  - destruct Hh as [-> | (answer & _ & ->)]; [reflexivity | now apply prefix_app_r].
  - destruct Hh as [-> | (answer & _ & ->)]; [lia |]. rewrite length_app. cbn. lia.
  - rewrite Htr. now apply prefix_app_r.
Qed.

(** X17: nothing is retried within a turn: whatever the services answer,
    one call of [get_answer] calls the rephrase chain, the retriever and
    the answer chain at most once each, and adds at most one log line. *)
Theorem get_answer_calls_each_service_once (svc : Services) (query : string) (w : World) :
  exists new : list RagEngine.event,
    trace (snd (get_answer svc query w)) = trace w ++ new
    /\ count_if is_rephrase new <= 1
    /\ count_if is_retrieve new <= 1
    /\ count_if is_answer new <= 1
    /\ length new <= 4.
Proof.
  destruct (get_answer_effects svc query w) as (new & Htr & H1 & H2 & H3 & H4 & _).
  now exists new.
Qed.

(** X18: the rewritten question serves retrieval only.  In a turn with
    history where the three services answer, the retriever receives the
    output of the rephrase chain, while the answer chain receives the
    question as asked, the history and the rendered context, and the turn
    stored is the question as asked with the answer. *)
Theorem rewritten_question_only_for_retrieval
        (svc : Services) (query : string) (w : World)
        (q' : string) (docs : list Document) (answer : string) :
  query <> "" ->
  chat_history w <> [] ->
  rephrase_chain svc (trace w) query (lc_history_of (chat_history w)) = Ok q' ->
  retriever svc (trace w ++ [RephraseInvoke query (lc_history_of (chat_history w))]) q'
  = Ok docs ->
  answer_chain svc
    (trace w ++ [RephraseInvoke query (lc_history_of (chat_history w));
                 RetrieverInvoke q'])
    query (lc_history_of (chat_history w)) (format_docs docs) = Ok answer ->
  get_answer svc query w
  = (Ok answer,
     mkWorld (chat_history w ++ [(query, answer)])
       (trace w ++ [RephraseInvoke query (lc_history_of (chat_history w));
                    RetrieverInvoke q';
                    AnswerInvoke query (lc_history_of (chat_history w))
                      (format_docs docs)])).
Proof.
  intros Hq Hh Hre Hrt Han.
  rewrite get_answer_unfold by assumption. rewrite full_chain_unfold.
  destruct (lc_history_of (chat_history w)) as [| m h] eqn:Hlc.
  - apply lc_history_of_nil in Hlc. contradiction.
  - rewrite retrieve_with_history. cbv zeta. rewrite Hre, Hrt.
    cbn [inp_input inp_chat_history].
    rewrite <- (app_assoc (trace w) [_] [_]). cbn [app]. rewrite Han.
    cbn [r_answer]. now rewrite <- app_assoc.
Qed.

Lemma rewritten_question_only_for_retrieval_witness :
  get_answer svc_rewrite "And the target?" one_turn
  = (Ok "7%",
     mkWorld (chat_history one_turn ++ [("And the target?", "7%")])
       (trace one_turn
        ++ [RephraseInvoke "And the target?" (lc_history_of (chat_history one_turn));
            RetrieverInvoke "What is the A1C target?";
            AnswerInvoke "And the target?" (lc_history_of (chat_history one_turn))
              (format_docs [IngestSpec.a1c_chunk])])).
Proof.
  apply (rewritten_question_only_for_retrieval svc_rewrite "And the target?" one_turn
           "What is the A1C target?" [IngestSpec.a1c_chunk] "7%");
    [discriminate | discriminate | reflexivity | reflexivity | reflexivity].
Defined.

Ltac solve_prefix :=
  first [ reflexivity | apply prefix_app_r; solve_prefix ].

(** A turn on a non-empty question starts with [first_call]. *)
Lemma get_answer_first_call (svc : Services) (query : string) (w : World) :
  query <> "" ->
  (trace w ++ [first_call query (lc_history_of (chat_history w))])
    `prefix_of` trace (snd (get_answer svc query w)).
Proof.
  intros Hq. rewrite get_answer_unfold by assumption. rewrite full_chain_unfold.
  destruct (lc_history_of (chat_history w)) as [| m h]; cbn [first_call].
  - rewrite retrieve_empty_history.
    destruct (retriever svc (trace w) query) as [docs | [msg | msg]]; cbv zeta.
    + destruct (answer_chain svc _ _ _ _) as [answer | [msg | msg]];
        cbn [snd trace]; solve_prefix.
    + cbn [snd trace]. solve_prefix.
    + cbn [snd trace]. solve_prefix.
  - rewrite retrieve_with_history. cbv zeta.
    destruct (rephrase_chain svc (trace w) query (m :: h)) as [q' | [msg | msg]].
    + destruct (retriever svc _ q') as [docs | [msg | msg]].
      * destruct (answer_chain svc _ _ _ _) as [answer | [msg | msg]];
          cbn [snd trace]; solve_prefix.
      * cbn [snd trace]. solve_prefix.
      * cbn [snd trace]. solve_prefix.
    + cbn [snd trace]. solve_prefix.
    + cbn [snd trace]. solve_prefix.
Qed.

(** X19: what a turn leaves for the next one.  For two non-empty questions
    asked in a row: when the chain answers the first, the second turn
    starts with a call of the rephrase chain on the second question and the
    earlier history followed by the first question and its answer; when
    the chain fails on the first with an [Exception], the second turn
    starts as it would have without the first (the failed question and the
    apology are not part of what the models see); when the first lets an
    exception through, the second never runs. *)
Theorem two_turns_history (svc : Services) (q1 q2 : string) (w : World) :
  q1 <> "" ->
  q2 <> "" ->
  let lc := lc_history_of (chat_history w) in
  let after := trace (snd (two_turns svc q1 q2 w)) in
  match _full_chain svc (mkInp q1 lc) (trace w) with
  | (Ok response, tr1) =>
      (tr1 ++ [RephraseInvoke q2
                 (lc ++ [HumanMessage q1; AIMessage (r_answer response)])])
        `prefix_of` after
  | (Raise (Exception msg), tr1) =>
      (tr1 ++ [RagEngine.LogError ("Error generating answer: " +:+ msg); first_call q2 lc])
        `prefix_of` after
  | (Raise (BaseException msg), tr1) => after = tr1
  end.
Proof.
  intros Hq1 Hq2. cbv zeta. unfold two_turns, bind.
  rewrite (get_answer_unfold svc q1 w Hq1).
  destruct (_full_chain svc _ (trace w)) as [[response | [msg | msg]] tr1].
  - pose proof (get_answer_first_call svc q2
                  (mkWorld (chat_history w ++ [(q1, r_answer response)]) tr1) Hq2) as H.
    cbn [chat_history trace] in H.
    unfold lc_history_of in H at 1. rewrite flat_map_app in H.
    fold (lc_history_of (chat_history w)) in H. cbn [flat_map app] in H.
    destruct (lc_history_of (chat_history w)); exact H.
  - pose proof (get_answer_first_call svc q2
                  (mkWorld (chat_history w)
                     (tr1 ++ [RagEngine.LogError ("Error generating answer: " +:+ msg)])) Hq2) as H.
    cbn [chat_history trace] in H. rewrite <- app_assoc in H. exact H.
  - reflexivity.
Qed.

Lemma two_turns_history_witness :
  let lc := lc_history_of (chat_history fresh) in
  let after :=
    trace (snd (two_turns svc_rewrite "What is A1C?" "And the target?" fresh)) in
  match _full_chain svc_rewrite (mkInp "What is A1C?" lc) (trace fresh) with
  | (Ok response, tr1) =>
      (tr1 ++ [RephraseInvoke "And the target?"
                 (lc ++ [HumanMessage "What is A1C?"; AIMessage (r_answer response)])])
        `prefix_of` after
  | (Raise (Exception msg), tr1) =>
      (tr1 ++ [RagEngine.LogError ("Error generating answer: " +:+ msg);
               first_call "And the target?" lc])
        `prefix_of` after
  | (Raise (BaseException msg), tr1) => after = tr1
  end.
Proof.
  apply (two_turns_history svc_rewrite "What is A1C?" "And the target?" fresh);
    discriminate.
Defined.

(** The two turns of the witness: the second question is rewritten with
    the first turn as history. *)
Example two_turns_run :
  two_turns svc_rewrite "What is A1C?" "And the target?" fresh
  = (Ok "7%",
     mkWorld [("What is A1C?", "7%"); ("And the target?", "7%")]
       [RetrieverInvoke "What is A1C?";
        AnswerInvoke "What is A1C?" [] (format_docs [IngestSpec.a1c_chunk]);
        RephraseInvoke "And the target?" [HumanMessage "What is A1C?"; AIMessage "7%"];
        RetrieverInvoke "What is the A1C target?";
        AnswerInvoke "And the target?" [HumanMessage "What is A1C?"; AIMessage "7%"]
          (format_docs [IngestSpec.a1c_chunk])]).
Proof. vm_compute. reflexivity. Qed.

(** ** The prompt and the HTTP surface *)

Import Cli.

Lemma lstrip_head (s : string) :
  lstrip s = "" \/ exists c r, lstrip s = String c r /\ is_space c = false.
Proof.
  induction s as [| c s IH]; [now left |]. cbn [lstrip].
  destruct (is_space c) eqn:Hc; [exact IH | right; now exists c, s].
Qed.

Lemma rstrip_head (c : ascii) (r : string) :
  is_space c = false -> exists r', rstrip (String c r) = String c r'.
Proof.
  intros Hc. cbn [rstrip]. rewrite Hc. destruct (rstrip r); eauto.
Qed.

Lemma rstrip_idempotent (s : string) : rstrip (rstrip s) = rstrip s.
Proof.
  induction s as [| c s IH]; [reflexivity |]. cbn [rstrip].
  destruct (rstrip s) as [| c' r] eqn:Hr.
  - destruct (is_space c) eqn:Hc; [reflexivity |]. cbn. now rewrite Hc.
  - change (rstrip (String c (String c' r)))
      with (match rstrip (String c' r) with
            | "" => if is_space c then "" else char c
            | String c0 r0 => String c (String c0 r0)
            end).
    now rewrite IH.
Qed.

(** Stripping twice is stripping once. *)
Lemma strip_idempotent (s : string) : strip (strip s) = strip s.
Proof.
  unfold strip. destruct (lstrip_head s) as [-> | (c & r & -> & Hc)]; [reflexivity |].
  destruct (rstrip_head c r Hc) as [r' Hr]. rewrite Hr. cbn [lstrip]. rewrite Hc.
  rewrite <- Hr. apply rstrip_idempotent.
Qed.

(** What is read as a question is the stripped line, and it is [asked]. *)
Lemma read_line_ask (raw q : string) :
  read_line raw = Ask q -> q = strip raw /\ asked q.
Proof.
  unfold read_line, asked.
  destruct (String.eqb_spec (lower (strip raw)) "q") as [| Hq1]; [discriminate |].
  destruct (String.eqb_spec (lower (strip raw)) "quit") as [| Hq2]; [discriminate |].
  destruct (String.eqb_spec (lower (strip raw)) "c") as [| Hc]; [discriminate |].
  destruct (String.eqb_spec (strip raw) "") as [| He]; [discriminate |].
  cbn [orb]. intros [= <-]. rewrite strip_idempotent. repeat split; assumption.
Qed.

(** X20: the questions kept in the history of a prompt session are
    questions as the prompt hands them on.  If every question of the
    history is non-empty, has no white space around it and is none of "q",
    "quit", "c" in any case, this still holds after the loop has run over
    any lines typed, whatever the services do. *)
Theorem chat_loop_keeps_questions_clean (svc : Services) (lines : list string) :
  forall w : World,
    Forall (fun turn => asked (fst turn)) (chat_history w) ->
    Forall (fun turn => asked (fst turn)) (chat_history (snd (chat_loop svc lines w))).
Proof.
  induction lines as [| raw lines IH]; intros w Hw; [exact Hw |].
  cbn [chat_loop]. destruct (read_line raw) as [| | | q] eqn:Hread.
  - exact Hw.
  - apply IH. cbn. constructor.
  - now apply IH.
  - apply read_line_ask in Hread as [_ Hasked].
    destruct (get_answer_effects svc q w) as (_ & _ & _ & _ & _ & _ & Hh).
    destruct (get_answer svc q w) as [[answer | [msg | msg]] w'] eqn:Hrun;
      cbn [fst snd] in *.
    + apply IH. destruct Hh as [-> | (a & _ & ->)]; [exact Hw |].
      apply Forall_app. split; [exact Hw |]. now constructor.
    + apply IH. cbn [chat_history].
      destruct Hh as [-> | (a & Hok & _)]; [exact Hw | discriminate].
    + destruct Hh as [-> | (a & Hok & _)]; [exact Hw | discriminate].
Qed.

Lemma chat_loop_keeps_questions_clean_witness :
  Forall (fun turn => asked (fst turn))
    (chat_history
       (snd (chat_loop svc_up ["  What is A1C?  "; ""; " C "; "quit me"; "Q"; "after"]
               one_turn))).
Proof.
  apply (chat_loop_keeps_questions_clean svc_up
           ["  What is A1C?  "; ""; " C "; "quit me"; "Q"; "after"] one_turn).
  repeat constructor; cbn; discriminate.
Defined.

(** The session of the witness: the first line is asked without its
    blanks, the blank line is skipped, " C " clears the history, "quit me"
    is a question, "Q" ends the loop and "after" is never read. *)
Example chat_loop_run :
  chat_history
    (snd (chat_loop svc_up ["  What is A1C?  "; ""; " C "; "quit me"; "Q"; "after"]
            one_turn))
  = [("quit me", format_docs [IngestSpec.a1c_chunk])]
  /\ List.filter is_retrieve
       (trace (snd (chat_loop svc_up
                      ["  What is A1C?  "; ""; " C "; "quit me"; "Q"; "after"] one_turn)))
     = [RetrieverInvoke "What is A1C?"; RetrieverInvoke "quit me"].
Proof. split; vm_compute; reflexivity. Qed.

(** X21: the loop stops at the first line that, stripped and lowered, is
    "q" or "quit": whatever was typed after it plays no part. *)
Theorem chat_loop_stops_at_quit (svc : Services) (before after : list string)
        (raw : string) (w : World) :
  lower (strip raw) = "q" \/ lower (strip raw) = "quit" ->
  chat_loop svc (before ++ raw :: after) w = chat_loop svc (before ++ [raw]) w.
Proof.
  intros Hquit.
  assert (Hread : read_line raw = Quit).
  { unfold read_line. destruct Hquit as [-> | ->]; reflexivity. }
  revert w. induction before as [| l before IH]; intros w.
  - cbn [app chat_loop]. now rewrite Hread.
  - cbn [app chat_loop]. destruct (read_line l); try reflexivity; try apply IH.
    destruct (get_answer svc user_input w) as [[a | [msg | msg]] w'];
      [apply IH | apply IH | reflexivity].
Qed.

Lemma chat_loop_stops_at_quit_witness :
  chat_loop svc_up (["What is A1C?"] ++ "  QUIT " :: ["And the target?"; "c"]) fresh
  = chat_loop svc_up (["What is A1C?"] ++ ["  QUIT "]) fresh.
Proof.
  apply (chat_loop_stops_at_quit svc_up ["What is A1C?"] ["And the target?"; "c"]
           "  QUIT " fresh).
  right. reflexivity.
Defined.

(** A line that is blank or a command word is read as such, not as a
    question. *)
Lemma read_line_command_or_blank (raw : string) :
  command_or_blank raw ->
  read_line raw = Quit \/ read_line raw = Clear \/ read_line raw = Skip.
Proof.
  unfold command_or_blank, read_line.
  intros [He | [Hq | [Hq | Hc]]].
  - rewrite He. right. right. reflexivity.
  - rewrite Hq. left. reflexivity.
  - rewrite Hq. left. reflexivity.
  - rewrite Hc. right. left. reflexivity.
Qed.

(** X22: lines that are not questions never reach a service.  Over lines
    each of which, once stripped, is empty or is "q", "quit" or "c" in any
    case, the loop leaves the trace of calls as it was, adds no turn to the
    history, and is either back at the prompt or left by a quit word, never
    by an exception. *)
Theorem chat_loop_commands_call_nothing (svc : Services) (lines : list string) :
  Forall command_or_blank lines ->
  forall w : World,
    trace (snd (chat_loop svc lines w)) = trace w
    /\ (chat_history (snd (chat_loop svc lines w)) = chat_history w
        \/ chat_history (snd (chat_loop svc lines w)) = [])
    /\ (fst (chat_loop svc lines w) = AtPrompt
        \/ fst (chat_loop svc lines w) = LeftByQuit).
Proof.
  induction 1 as [| raw lines Hraw _ IH]; intros w.
  - cbn. auto.
  - cbn [chat_loop].
    destruct (read_line_command_or_blank raw Hraw) as [-> | [-> | ->]].
    + cbn. auto.
    + destruct (IH (snd (clear_history w))) as (Htr & Hh & Hst).
      cbn [clear_history snd chat_history trace] in *.
      repeat split; [exact Htr | | exact Hst].
      right. destruct Hh as [-> | ->]; reflexivity.
    + apply IH.
Qed.

Lemma chat_loop_commands_call_nothing_witness :
  trace (snd (chat_loop svc_rephrase_down [""; "   "; "c"; " C"; "Quit"] one_turn))
  = trace one_turn
  /\ (chat_history (snd (chat_loop svc_rephrase_down [""; "   "; "c"; " C"; "Quit"]
                           one_turn))
      = chat_history one_turn
      \/ chat_history (snd (chat_loop svc_rephrase_down [""; "   "; "c"; " C"; "Quit"]
                              one_turn))
         = [])
  /\ (fst (chat_loop svc_rephrase_down [""; "   "; "c"; " C"; "Quit"] one_turn) = AtPrompt
      \/ fst (chat_loop svc_rephrase_down [""; "   "; "c"; " C"; "Quit"] one_turn)
         = LeftByQuit).
Proof.
  apply (chat_loop_commands_call_nothing svc_rephrase_down
           [""; "   "; "c"; " C"; "Quit"]).
  repeat constructor; cbv [command_or_blank]; vm_compute; tauto.
Defined.

(** X23: the two ways in do not treat a blank question alike.  A
    non-empty question of white space only is skipped by the prompt, which
    strips what is typed, and the world is left as it was; sent to
    [POST /chat] it is handed to [get_answer] as it is, which is not the
    empty string, so the turn starts and a service is called with it. *)
Theorem blank_question_prompt_vs_http (svc : Services) (q : string) (w : World) :
  q <> "" ->
  all_space q = true ->
  chat_loop svc [q] w = (AtPrompt, w)
  /\ (trace w ++ [first_call q (lc_history_of (chat_history w))])
       `prefix_of` trace (snd (App.chat svc (App.mkChatRequest q) w)).
Proof.
  intros Hq Hspace. split.
  - cbn [chat_loop]. unfold read_line.
    apply strip_empty_iff in Hspace. rewrite Hspace. reflexivity.
  - pose proof (get_answer_first_call svc q w Hq) as H.
    unfold App.chat, bind. cbn [App.question].
    destruct (get_answer svc q w) as [[a | e] w']; exact H.
Qed.

Lemma blank_question_prompt_vs_http_witness :
  chat_loop svc_up ["   "] fresh = (AtPrompt, fresh)
  /\ (trace fresh ++ [first_call "   " (lc_history_of (chat_history fresh))])
       `prefix_of` trace (snd (App.chat svc_up (App.mkChatRequest "   ") fresh)).
Proof.
  apply (blank_question_prompt_vs_http svc_up "   " fresh); [discriminate | reflexivity].
Defined.

(** The request of the witness: the retriever is queried with three
    blanks and the turn is stored. *)
Example http_blank_question :
  snd (App.chat svc_up (App.mkChatRequest "   ") fresh)
  = mkWorld [("   ", format_docs [IngestSpec.a1c_chunk])]
      [RetrieverInvoke "   ";
       AnswerInvoke "   " [] (format_docs [IngestSpec.a1c_chunk])].
Proof. vm_compute. reflexivity. Qed.

(** ** The environment *)

(** X24: [load_env_vars] logs that all is well exactly when both required
    variables are set to something other than the empty string (a variable
    set to the empty string counts as missing), and whenever it does,
    [get_embeddings] builds the endpoint embeddings for "BAAI/bge-m3" with
    the token of the environment, not the local fallback. *)
Theorem env_report_and_embeddings (environ : gmap string string) :
  (Config.load_env_vars environ = Config.Info "Environment variables loaded successfully."
   <-> Config.is_set environ "GOOGLE_API_KEY" = true
       /\ Config.is_set environ "HUGGINGFACEHUB_API_TOKEN" = true)
  /\ (Config.is_set environ "HUGGINGFACEHUB_API_TOKEN" = true ->
      exists token : string,
        environ !! "HUGGINGFACEHUB_API_TOKEN" = Some token
        /\ token <> ""
        /\ fst (Config.get_embeddings environ)
           = Config.HuggingFaceEndpointEmbeddings "BAAI/bge-m3" token)
  /\ (Config.is_set environ "HUGGINGFACEHUB_API_TOKEN" = false ->
      fst (Config.get_embeddings environ) = Config.HuggingFaceEmbeddings "BAAI/bge-m3").
Proof.
  split; [| split].
  - unfold Config.load_env_vars, Config.required_vars. cbn [List.filter].
    destruct (Config.is_set environ "GOOGLE_API_KEY");
      destruct (Config.is_set environ "HUGGINGFACEHUB_API_TOKEN");
      cbn [negb]; split; try discriminate; try (intros [H1 H2]; discriminate); auto.
  - unfold Config.is_set, Config.get_embeddings.
    destruct (environ !! "HUGGINGFACEHUB_API_TOKEN") as [[| c t] |]; try discriminate.
    intros _. exists (String c t). repeat split. discriminate.
  - unfold Config.is_set, Config.get_embeddings.
    destruct (environ !! "HUGGINGFACEHUB_API_TOKEN") as [[| c t] |];
      try discriminate; reflexivity.
Qed.

Lemma env_report_and_embeddings_witness :
  Config.load_env_vars
    (<["GOOGLE_API_KEY" := "g-key"]> (<["HUGGINGFACEHUB_API_TOKEN" := ""]> ∅))
  = Config.Warning
      ("Missing environment variables: HUGGINGFACEHUB_API_TOKEN. "
       +:+ "Make sure they are set in .env or the system environment.")
  /\ fst (Config.get_embeddings
            (<["GOOGLE_API_KEY" := "g-key"]> (<["HUGGINGFACEHUB_API_TOKEN" := ""]> ∅)))
     = Config.HuggingFaceEmbeddings "BAAI/bge-m3".
Proof.
  split; [vm_compute; reflexivity |].
  apply (proj2 (proj2 (env_report_and_embeddings
                         (<["GOOGLE_API_KEY" := "g-key"]>
                            (<["HUGGINGFACEHUB_API_TOKEN" := ""]> ∅))))).
  vm_compute. reflexivity.
Defined.

(** ** The normalizer on what the cleaner returns *)

Lemma has_char_lstrip (c : ascii) (s : string) :
  has_char c s = false -> has_char c (lstrip s) = false.
Proof.
  induction s as [| a s IH]; [reflexivity |]. cbn [lstrip has_char].
  intros H. apply orb_false_elim in H as [Ha Hs].
  destruct (is_space a); [now apply IH | cbn [has_char]; now rewrite Ha, Hs].
Qed.

Lemma has_char_rstrip (c : ascii) (s : string) :
  has_char c s = false -> has_char c (rstrip s) = false.
Proof.
  induction s as [| a s IH]; [reflexivity |]. cbn [rstrip has_char].
  intros H. apply orb_false_elim in H as [Ha Hs]. specialize (IH Hs).
  destruct (rstrip s) as [| b r].
  - destruct (is_space a); [reflexivity | cbn; now rewrite Ha].
  - cbn [has_char] in *. now rewrite Ha, IH.
Qed.

Lemma has_char_strip (c : ascii) (s : string) :
  has_char c s = false -> has_char c (strip s) = false.
Proof. intros H. unfold strip. now apply has_char_rstrip, has_char_lstrip. Qed.

(** A line of white space only that is its own trim is empty. *)
Lemma stripped_blank_is_empty (line : string) :
  strip line = line -> all_space line = true -> line = "".
Proof. intros Hs Hb. apply strip_empty_iff in Hb. congruence. Qed.

(** The cleaner [strip_lines] returns no non-empty line of white space. *)
Lemma strip_lines_leaves_no_blank_line : IngestSpec.leaves_no_blank_line IngestSpec.strip_lines.
Proof.
  intros text line Hin Hblank. unfold IngestSpec.strip_lines in Hin.
  set (ls := List.filter (fun l => negb (String.eqb l "")) (map strip (split LF text))) in *.
  assert (Hls : forall l, In l ls -> strip l = l /\ has_char LF l = false).
  { intros l Hl. unfold ls in Hl. apply List.filter_In in Hl as [Hl _].
    apply in_map_iff in Hl as (x & <- & Hx). split; [apply strip_idempotent |].
    apply has_char_strip.
    pose proof (split_no_sep LF text) as Hall.
    rewrite List.Forall_forall in Hall. now apply Hall. }
  destruct ls as [| l0 ls'] eqn:Hnil.
  - destruct Hin as [<- | []]. reflexivity.
  - rewrite split_join in Hin.
    + apply stripped_blank_is_empty; [now apply Hls | assumption].
    + discriminate.
    + apply List.Forall_forall. intros l Hl. now apply Hls.
Qed.

(** On the lines of a text without blank lines of white space, the test
    of line 42 and the rule of the specification keep the same lines. *)
Lemma keep_line_spec_keeps (line : string) :
  (all_space line = true -> line = "") ->
  keep_line line = IngestSpec.spec_keeps line.
Proof.
  intros Hblank. unfold keep_line, IngestSpec.spec_keeps. f_equal.
  destruct (String.eqb_spec (strip line) "") as [Hs | Hs];
    destruct (String.eqb_spec line "") as [Hl | Hl]; try reflexivity.
  - apply strip_empty_iff in Hs. now apply Hblank in Hs.
  - subst line. now elim Hs.
Qed.

Lemma filter_agree {A : Type} (p q : A -> bool) (l : list A) :
  (forall x, In x l -> p x = q x) -> List.filter p l = List.filter q l.
Proof.
  induction l as [| x l IH]; intros H; [reflexivity |]. cbn [List.filter].
  rewrite (H x (or_introl eq_refl)), IH; [reflexivity |].
  intros y Hy. apply H. now right.
Qed.

(** C9: for every input text, with a cleaner whose white-space
    normalisation returns no non-empty line of white space only,
    [clean_text_content] keeps of the lines of the cleaned text exactly
    those whose trimmed length exceeds 3 or that are empty, and drops
    every other line; the lines kept are unchanged and in order, joined by
    line breaks, so that the output read back line by line gives exactly
    them; and no line of the output is a non-empty line of white space
    only. *)
Theorem clean_text_content_drops_short_lines (clean : string -> string) (text : string) :
  IngestSpec.leaves_no_blank_line clean ->
  let lines := split LF (clean text) in
  let kept := List.filter IngestSpec.spec_keeps lines in
  clean_text_content clean text = join (char LF) kept
  /\ (forall line : string,
         In line kept
         <-> In line lines /\ (3 < String.length (strip line) \/ line = ""))
  /\ (kept <> [] -> split LF (clean_text_content clean text) = kept)
  /\ (forall line : string,
         In line (split LF (clean_text_content clean text)) ->
         all_space line = true -> line = "").
Proof.
  intros Hclean. cbv zeta.
  assert (Hsame : List.filter keep_line (split LF (clean text))
                  = List.filter IngestSpec.spec_keeps (split LF (clean text))).
  { apply filter_agree. intros l Hl. apply keep_line_spec_keeps. now apply (Hclean text). }
  assert (Hlines : split LF (clean_text_content clean text)
                   = match List.filter IngestSpec.spec_keeps (split LF (clean text)) with
                     | [] => [""]
                     | kept => kept
                     end).
  { unfold clean_text_content. now rewrite drop_short_lines_lines, Hsame. }
  split; [| split; [| split]].
  - unfold clean_text_content, drop_short_lines. now rewrite Hsame.
  - intros line. rewrite List.filter_In. unfold IngestSpec.spec_keeps.
    rewrite orb_true_iff, Nat.ltb_lt, String.eqb_eq. reflexivity.
  - intros Hne. rewrite Hlines.
    destruct (List.filter IngestSpec.spec_keeps (split LF (clean text)));
      [congruence | reflexivity].
  - intros line Hin Hblank. rewrite Hlines in Hin.
    destruct (List.filter IngestSpec.spec_keeps (split LF (clean text)))
      as [| l ls] eqn:Hk.
    + destruct Hin as [<- | []]. reflexivity.
    + rewrite <- Hk in Hin. apply List.filter_In in Hin as [Hin _].
      now apply (Hclean text).
Qed.

Lemma clean_text_content_drops_short_lines_witness :
  let text := "Dosage table" +:+ char LF +:+ "  " +:+ char LF +:+ " 12 "
              +:+ char LF +:+ "  Adults only" in
  let lines := split LF (IngestSpec.strip_lines text) in
  let kept := List.filter IngestSpec.spec_keeps lines in
  clean_text_content IngestSpec.strip_lines text = join (char LF) kept
  /\ (forall line : string,
         In line kept
         <-> In line lines /\ (3 < String.length (strip line) \/ line = ""))
  /\ (kept <> [] -> split LF (clean_text_content IngestSpec.strip_lines text) = kept)
  /\ (forall line : string,
         In line (split LF (clean_text_content IngestSpec.strip_lines text)) ->
         all_space line = true -> line = "").
Proof.
  apply (clean_text_content_drops_short_lines IngestSpec.strip_lines
           ("Dosage table" +:+ char LF +:+ "  " +:+ char LF +:+ " 12 "
            +:+ char LF +:+ "  Adults only")).
  exact strip_lines_leaves_no_blank_line.
Defined.

(** The text of the witness: the line of blanks and the line "12" are
    gone, the two long lines are left, stripped by the cleaner. *)
Example clean_text_content_run :
  clean_text_content IngestSpec.strip_lines
    ("Dosage table" +:+ char LF +:+ "  " +:+ char LF +:+ " 12 "
     +:+ char LF +:+ "  Adults only")
  = "Dosage table" +:+ char LF +:+ "Adults only".
Proof. vm_compute. reflexivity. Qed.
